(** * Stereo capture geometry: capture.py and CaptureView/CaptureView.py

    A shallow embedding of the two Fusion 360 capture scripts and the
    properties their specification states about them.

    Layout:
    - the Python run time the scripts rely on (exceptions, [float]
      arithmetic, the [math] module, a few [str] methods), as interfaces
      with concrete instances;
    - [Module Capture]: the functions of capture.py;
    - [Module CaptureView]: the functions of CaptureView/CaptureView.py;
    - reference definitions that follow the specification's wording;
    - the theorems: first what holds in every arithmetic (control flow,
      the knot tables, the capture loop, the parser), then what is stated
      in exact arithmetic (the interpolation formula, unit vectors, yaw
      angles) and what is checked in binary64 by evaluation;
    - further properties of the code: the interpolation and the grid
      mapping, plane geometry, the requests of a run, positions.txt and the
      file names, the render workspace, and the renders of
      CaptureView.py. *)

From Stdlib Require Import Floats.
From Stdlib Require Import ZArith QArith Reals Lra String Ascii.
From stdpp Require Import gmap sorting list strings pretty.

(** ** Python exceptions

    A computation that may raise returns [res A]: either a value or the
    exception that ended it. *)

Inductive exn : Type :=
  | IndexError
  | KeyError
  | ZeroDivisionError
  | OverflowError
  | ValueError
  | RuntimeError (msg : string).

Inductive res (A : Type) : Type :=
  | Ok (a : A)
  | Raise (e : exn).
Arguments Ok {A} a.
Arguments Raise {A} e.

Global Instance res_ret : MRet res := fun _ a => Ok a.
Global Instance res_bind : MBind res := fun _ _ f m =>
  match m with
  | Ok a => f a
  | Raise e => Raise e
  end.

Definition raises {A} (m : res A) : Prop := ∃ e, m = Raise e.

Definition returns {A} (m : res A) : bool :=
  match m with
  | Ok _ => true
  | Raise _ => false
  end.

(** ** Python [float]

    The scripts compute on Python floats.  The embedding is written once
    over the interface [PyFloat] and read in two ways:
    - [float64_PyFloat]: IEEE-754 binary64 with round-to-nearest-even, the
      arithmetic CPython executes, on Rocq's primitive floats;
    - [real_PyFloat]: exact arithmetic on the real numbers, the reading in
      which the specification states its formulas ("physical_value: real").
      It abstracts from the rounding of values only: the exceptions are
      those of the machine reading.

    [lit q] is the float literal whose decimal digits denote the rational
    [q]; [of_int] is the conversion [float(n)] (also applied implicitly by
    [n / x]), which raises [OverflowError] when [n] is too large; [fdiv]
    raises [ZeroDivisionError] on a zero divisor; the other operations
    never raise. *)

Class PyFloat (F : Type) : Type := {
  lit : Q → F;
  of_int : Z → res F;
  fadd : F → F → F;
  fsub : F → F → F;
  fmul : F → F → F;
  fneg : F → F;
  fdiv : F → F → res F;
  fle : F → F → bool;
}.

Declare Scope py_scope.
Delimit Scope py_scope with py.
Infix "+" := fadd : py_scope.
Infix "-" := fsub : py_scope.
Infix "*" := fmul : py_scope.
Infix "/" := fdiv : py_scope.
Infix "<=?" := fle : py_scope.
Notation "- x" := (fneg x) : py_scope.

(** The functions of Python's [math] module that the scripts call.
    [math.cos] and [math.sin] raise [ValueError] on an infinite argument;
    the scripts apply them to [math.radians] of the fixed yaw and pitch
    angles only, and the interface takes them as total. *)
Class PyMath (F : Type) : Type := {
  math_radians : F → F;
  math_cos : F → F;
  math_sin : F → F;
  math_hypot : F → F → F;
}.

(** [float(n)] raises [OverflowError] when [n], rounded to nearest with
    ties to even, leaves the finite range of binary64: from
    [2^1024 - 2^970] on in absolute value, half way between the largest
    float [2^1024 - 2^971] and [2^1024]. *)
Definition float_overflow_threshold : Z := 2 ^ 1024 - 2 ^ 970.

(** *** Exact reading: real numbers *)

Global Instance Rle_decision (x y : R) : Decision (x <= y)%R := Rle_dec x y.
Global Instance Req_decision : EqDecision R := Req_dec_T.

Global Instance real_PyFloat : PyFloat R := {|
  lit q := Q2R q;
  of_int n :=
    if decide (Z.abs n < float_overflow_threshold)%Z then Ok (IZR n)
    else Raise OverflowError;
  fadd := Rplus;
  fsub := Rminus;
  fmul := Rmult;
  fneg := Ropp;
  fdiv x y := if decide (y = 0%R) then Raise ZeroDivisionError else Ok (x / y)%R;
  fle x y := bool_decide (x <= y)%R;
|}.

(** The exact reading of the [math] functions.  The real numbers have no
    infinity and no not-a-number: where binary64's [hypot] overflows or
    meets one, the machine reading differs from this one by more than
    rounding, and the theorems on [norm2d] say so. *)
Global Instance real_PyMath : PyMath R := {|
  math_radians deg := (deg * (PI / 180))%R;
  math_cos := cos;
  math_sin := sin;
  math_hypot x y := sqrt (x * x + y * y);
|}.

(** *** Machine reading: IEEE-754 binary64 *)

(** [float(n)]: the nearest binary64 value, ties to even; CPython raises
    [OverflowError] exactly when that rounding leaves the finite range. *)
Definition float64_of_int (n : Z) : res float :=
  let f := SF2Prim (binary_normalize prec emax n 0 false) in
  if PrimFloat.is_infinity f then Raise OverflowError else Ok f.

(** A decimal literal [m / 10^k]: the correctly rounded quotient of two
    exactly representable integers (all literals of the scripts have
    [m < 2^53] and [k <= 22]). *)
Definition float64_lit (q : Q) : float :=
  PrimFloat.div (SF2Prim (binary_normalize prec emax (Qnum q) 0 false))
                (SF2Prim (binary_normalize prec emax (Zpos (Qden q)) 0 false)).

Global Instance float64_PyFloat : PyFloat float := {|
  lit := float64_lit;
  of_int := float64_of_int;
  fadd := PrimFloat.add;
  fsub := PrimFloat.sub;
  fmul := PrimFloat.mul;
  fneg := PrimFloat.opp;
  fdiv x y := if PrimFloat.eqb y PrimFloat.zero then Raise ZeroDivisionError
              else Ok (PrimFloat.div x y);
  fle := PrimFloat.leb;
|}.

(** *** Strict comparison, and [min] and [max] of two floats

    [x < y] on floats ([y > x] is the same test); on binary64 it is false
    as soon as one side is not a number.  [min(a, b)] keeps [a] unless
    [b < a], and [max(a, b)] keeps [a] unless [b > a]. *)

Class PyFloatOrd (F : Type) : Type := {
  flt : F → F → bool;
}.
Infix "<?" := flt : py_scope.

Global Instance Rlt_decision (x y : R) : Decision (x < y)%R := Rlt_dec x y.

Global Instance real_PyFloatOrd : PyFloatOrd R := {|
  flt x y := bool_decide (x < y)%R;
|}.

Global Instance float64_PyFloatOrd : PyFloatOrd float := {|
  flt := PrimFloat.ltb;
|}.

Definition py_min {F} {PO : PyFloatOrd F} (a b : F) : F :=
  if (b <? a)%py then b else a.

Definition py_max {F} {PO : PyFloatOrd F} (a b : F) : F :=
  if (a <? b)%py then b else a.

(** ** Python built-ins on [dict], [list] and [str] *)

(** [d[k]]: [KeyError] when the key is absent. *)
Definition getitem {V} (d : gmap Z V) (k : Z) : res V :=
  match d !! k with
  | Some v => Ok v
  | None => Raise KeyError
  end.

(** [sorted(d.keys())] for integer keys. *)
Definition sorted_keys {V} (d : gmap Z V) : list Z :=
  merge_sort Z.le (elements (dom d)).

(** [l[0]] and [l[-1]]: [IndexError] on the empty list. *)
Definition first_item {A} (l : list A) : res A :=
  match l with
  | x :: _ => Ok x
  | [] => Raise IndexError
  end.

Definition last_item {A} (l : list A) : res A :=
  match last l with
  | Some x => Ok x
  | None => Raise IndexError
  end.

(** *** Strings and paths

    [str.strip], [int] and [os.path.join] depend on the Unicode tables, the
    interpreter version and the platform; the scripts are embedded over
    the interface [PyBuiltins], so what is proved holds for every
    implementation of them.  [ascii_PyBuiltins] below implements the
    interface for ASCII text and POSIX paths and makes the embedding run:
    on a text with a character outside ASCII, [str.strip] also removes
    the other white space of Unicode and [int] also reads the other
    decimal digits of Unicode, which the instance does not; what is
    stated about the instance is stated for ASCII text. *)

Class PyBuiltins : Type := {
  str_strip : string → string;
  int_of_str : string → res Z;
  path_join : string → string → string;
}.

(** [s.startswith(p)] *)
Definition startswith (p s : string) : bool := String.prefix p s.

(** [s.split(sep)] for a separator of one character: never the empty list. *)
Fixpoint str_split (sep : ascii) (s : string) : list string :=
  match s with
  | EmptyString => [EmptyString]
  | String c s' =>
      if decide (c = sep) then EmptyString :: str_split sep s'
      else
        match str_split sep s' with
        | part :: parts => String c part :: parts
        | [] => [String c EmptyString]
        end
  end.

(** [str(n)] for an integer, as an f-string formats [{n}]. *)
Definition str_of_int (n : Z) : string := pretty n.

(** The ASCII white space that [str.strip] removes. *)
Definition ascii_isspace (c : ascii) : bool :=
  let n := nat_of_ascii c in
  ((9 <=? n) && (n <=? 13) || (28 <=? n) && (n <=? 32))%nat.

Fixpoint ascii_lstrip (s : string) : string :=
  match s with
  | String c s' => if ascii_isspace c then ascii_lstrip s' else s
  | EmptyString => EmptyString
  end.

Definition ascii_strip (s : string) : string :=
  String.rev (ascii_lstrip (String.rev (ascii_lstrip s))).

(** The digits of [int(s)]: decimal digits, single underscores allowed
    between two digits. *)
Fixpoint ascii_digits (acc : Z) (after_digit : bool) (s : string) : option Z :=
  match s with
  | EmptyString => if after_digit then Some acc else None
  | String c s' =>
      if decide (c = "_"%char) then
        if after_digit then ascii_digits acc false s' else None
      else
        match Ascii.is_nat c with
        | Some d => ascii_digits (10 * acc + Z.of_nat d) true s'
        | None => None
        end
  end.

(** The number of decimal digits of a string. *)
Fixpoint ascii_count_digits (s : string) : Z :=
  match s with
  | EmptyString => 0
  | String c s' =>
      match Ascii.is_nat c with
      | Some _ => 1 + ascii_count_digits s'
      | None => ascii_count_digits s'
      end
  end.

(** The default of [sys.int_info.default_max_str_digits]: [int(s)] raises
    [ValueError] on more digits (CPython 3.11, and the security releases of
    the versions before). *)
Definition max_str_digits : Z := 4300.

Definition ascii_int (s : string) : res Z :=
  let signed :=
    match ascii_strip s with
    | String "-"%char r => Z.opp <$> ascii_digits 0 false r
    | String "+"%char r => ascii_digits 0 false r
    | r => ascii_digits 0 false r
    end in
  match signed with
  | Some n =>
      if (max_str_digits <? ascii_count_digits (ascii_strip s))%Z
      then Raise ValueError
      else Ok n
  | None => Raise ValueError
  end.

Definition posix_join (a b : string) : string :=
  if startswith "/" b then b
  else if decide (a = EmptyString) then b
  else if startswith "/" (String.rev a) then a +:+ b
  else a +:+ "/" +:+ b.

Definition ascii_PyBuiltins : PyBuiltins := {|
  str_strip := ascii_strip;
  int_of_str := ascii_int;
  path_join := posix_join;
|}.

(** ** The host application

    The scripts drive Fusion 360 through its [adsk] object model.  The host
    is an external collaborator: it is modelled by the sequence of captures
    it has been asked for, each with the camera pose and the output file of
    the request.  A request appends one entry; the camera object itself,
    window refreshes and the file system are not modelled.  What a script
    derives for the camera from the request is given apart: the look-at
    target ([capture_target], [render_target]) and the clamped field of
    view of CaptureView.py ([safe_fov]). *)

Record capture_call (F : Type) : Type := CaptureCall {
  call_eye : F * F * F;
  call_fwd : F * F * F;
  call_vfov : F;
  call_path : string;
}.
Arguments CaptureCall {F} _ _ _ _.
Arguments call_eye {F} _.
Arguments call_fwd {F} _.
Arguments call_vfov {F} _.
Arguments call_path {F} _.

Definition host (F : Type) : Type := list (capture_call F).

(** [adsk.core.Vector3D.normalize]: the Fusion API scales a vector that is
    not of length zero to length one (in exact arithmetic, the vector
    divided by its length); what it leaves in a vector of length zero is
    not documented, and the instance leaves it as it is. *)
Class AdskVector (F : Type) : Type := {
  vector3d_normalize : F * F * F → F * F * F;
}.

Definition real_length3 (v : R * R * R) : R :=
  sqrt (v.1.1 * v.1.1 + v.1.2 * v.1.2 + v.2 * v.2).

Global Instance real_AdskVector : AdskVector R := {|
  vector3d_normalize v :=
    let n := real_length3 v in
    if decide (n = 0%R) then v else (v.1.1 / n, v.1.2 / n, v.2 / n)%R;
|}.

(** [ui.workspaces.itemById]: the workspace of that id, or [None]. *)
Definition workspaces (W : Type) : Type := string → option W.

(** [adsk.fusion.LocalRenderStates]: the states of a local render. *)
Inductive local_render_state : Type :=
  | QueuedLocalRenderState
  | ProcessingLocalRenderState
  | FinishedLocalRenderState
  | FailedLocalRenderState.

(** What [run] reports to the user when it returns. *)
Inductive outcome : Type :=
  | Completed (out_dir : string)
  | Failed (e : exn).

(** ** capture.py *)

Module Capture.
Section Core.
Context {F : Type} {PF : PyFloat F}.

Definition IN_PER_CM : res F := (lit 1.0 / lit 2.54)%py.
Definition CM_PER_IN : F := lit 2.54.

Definition GRID_Z_IN : F := lit 33.577.
Definition EYE_RAISE_IN : F := lit 2.5.
Definition EYE_Z_IN : F := (GRID_Z_IN + EYE_RAISE_IN)%py.

Definition EYE_SEPARATION_IN : F := lit 0.5.
Definition HALF_BASE_IN : res F := (EYE_SEPARATION_IN / lit 2.0)%py.
Definition YAW_OFFSET_DEG : F := lit 50.0.
Definition PITCH_UP_DEG : F := lit 15.0.
Definition VFOV_DEG : F := lit 150.0.

Definition IMG_W : Z := 128.
Definition IMG_H : Z := 128.

Definition X_FROM_GRID_Y_IN : gmap Z F :=
  list_to_map
    [ (0, lit 8.039); (1, lit 16.336); (5, lit 55.519);
      (9, lit 94.702); (10, lit 102.999) ]%Z.

Definition Y_FROM_GRID_X_IN : gmap Z F :=
  list_to_map
    [ (0, lit 6.02); (1, lit 14.317); (5, lit 53.50);
      (9, lit 92.683); (10, lit 100.98) ]%Z.

(** The [for i in range(len(keys) - 1)] loop of [_interp_linear]: the
    first adjacent pair [keys[i], keys[i+1]] with
    [keys[i] <= index <= keys[i+1]], or [None] when the loop ends
    without [break]. *)
Fixpoint find_bracket (index : Z) (keys : list Z) : option (Z * Z) :=
  match keys with
  | k0 :: ((k1 :: _) as rest) =>
      if ((k0 <=? index) && (index <=? k1))%Z then Some (k0, k1)
      else find_bracket index rest
  | _ => None
  end.

Definition _interp_linear (index : Z) (knot_map : gmap Z F) : res F :=
  match knot_map !! index with
  | Some v => Ok v
  | None =>
      let keys := sorted_keys knot_map in
      key_lo ← first_item keys;
      if (index <=? key_lo)%Z then getitem knot_map key_lo
      else
        key_hi ← last_item keys;
        if (index >=? key_hi)%Z then getitem knot_map key_hi
        else
          match find_bracket index keys with
          | None => getitem knot_map key_lo
          | Some (k0, k1) =>
              if (k1 =? k0)%Z then getitem knot_map key_lo
              else
                d ← of_int (k1 - k0);
                n ← of_int (index - k0);
                t ← (n / d)%py;
                v0 ← getitem knot_map k0;
                v1 ← getitem knot_map k1;
                mret (v0 * (lit 1.0 - t) + v1 * t)%py
          end
  end.

Definition grid_to_model_in (gx gy : Z) : res (F * F * F) :=
  mx ← _interp_linear gy X_FROM_GRID_Y_IN;
  my ← _interp_linear gx Y_FROM_GRID_X_IN;
  let mz := GRID_Z_IN in
  mret (mx, my, mz).

Definition inches_to_cm (x_in : F) : F := (x_in * CM_PER_IN)%py.

Definition add2d (a b : F * F) : F * F := (a.1 + b.1, a.2 + b.2)%py.

Definition scale2d (v : F * F) (s : F) : F * F := (v.1 * s, v.2 * s)%py.

Definition is_corner (gx gy : Z) : bool :=
  ((gx =? 0) || (gx =? 10))%Z && ((gy =? 0) || (gy =? 10))%Z.

Context {PM : PyMath F}.

Definition rot2d (vx vy deg : F) : F * F :=
  let rad := math_radians deg in
  let c := math_cos rad in
  let s := math_sin rad in
  (vx * c - vy * s, vx * s + vy * c)%py.

Definition norm2d (vx vy : F) : res (F * F) :=
  let mag := math_hypot vx vy in
  if (mag <=? lit 1e-9)%py then mret (lit 0.0, lit 0.0)
  else
    x ← (vx / mag)%py;
    y ← (vy / mag)%py;
    mret (x, y).

Context {PB : PyBuiltins}.

(** One turn of the loop over the stripped lines in
    [parse_positions_txt]; the state is the pair of the loop's variables
    [prefix] and [positions]. *)
Definition parse_line (st : option string * list (Z * Z)) (ln : string)
    : option string * list (Z * Z) :=
  let '(prefix, positions) := st in
  if bool_decide (ln = EmptyString) || startswith "#" ln then st
  else
    match prefix with
    | None => (Some ln, positions)
    | Some _ =>
        match str_split "," ln with
        | [part0; part1] =>
            match gx ← int_of_str (str_strip part0);
                  gy ← int_of_str (str_strip part1);
                  mret (gx, gy) with
            | Ok cell => (prefix, positions ++ [cell])
            | Raise _ => st
            end
        | _ => st
        end
    end.

(** [file_lines] is what [f.readlines()] returns for positions.txt (the
    file is taken to exist and to decode). *)
Definition parse_positions_txt (file_lines : list string)
    : res (string * list (Z * Z)) :=
  let lines := str_strip <$> file_lines in
  match foldl parse_line (None, []) lines with
  | (None, _) =>
      Raise (RuntimeError "positions.txt missing file_prefix on first line.")
  | (Some prefix, positions) => Ok (prefix, positions)
  end.

Definition set_camera_and_capture (app : host F)
    (eye_pt_cm fwd_vec3 : F * F * F) (v_fov_deg : F) (out_path : string)
    : host F :=
  app ++ [CaptureCall eye_pt_cm fwd_vec3 v_fov_deg out_path].

(** The local function [model_xy_cm] of [run]. *)
Definition model_xy_cm (gx gy : Z) : res (F * F) :=
  '(mx_in, my_in, _) ← grid_to_model_in gx gy;
  mret (inches_to_cm mx_in, inches_to_cm my_in).

(** [run], lines 243-272: the two direction sets [dirs_cardinal] and
    [dirs_diagonal]. *)
Definition direction_sets
    : res (list (string * (F * F)) * list (string * (F * F))) :=
  p_55 ← model_xy_cm 5 5;
  p_50 ← model_xy_cm 5 0;
  p_105 ← model_xy_cm 10 5;
  let north2 := (p_50.1 - p_55.1, p_50.2 - p_55.2)%py in
  let east2 := (p_105.1 - p_55.1, p_105.2 - p_55.2)%py in
  north2 ← norm2d north2.1 north2.2;
  east2 ← norm2d east2.1 east2.2;
  let south2 := (- north2.1, - north2.2)%py in
  let west2 := (- east2.1, - east2.2)%py in
  ne2 ← norm2d (north2.1 + east2.1)%py (north2.2 + east2.2)%py;
  se2 ← norm2d (south2.1 + east2.1)%py (south2.2 + east2.2)%py;
  sw2 ← norm2d (south2.1 + west2.1)%py (south2.2 + west2.2)%py;
  nw2 ← norm2d (north2.1 + west2.1)%py (north2.2 + west2.2)%py;
  let dirs_cardinal :=
    [ ("north", north2); ("east", east2);
      ("south", south2); ("west", west2) ] in
  let dirs_diagonal :=
    [ ("ne", ne2); ("se", se2); ("sw", sw2); ("nw", nw2) ] in
  mret (dirs_cardinal, dirs_diagonal).

(** [run], lines 290-315: the poses of the two eyes for a center
    [(cx, cy, cz)] and a base direction; [half_base_in] is the value of
    the module constant [HALF_BASE_IN].  The result is
    [(left_eye_pt, left_fwd3, right_eye_pt, right_fwd3)]. *)
Definition eye_poses (cx cy cz half_base_in : F) (base_fwd2 : F * F)
    : (F * F * F) * (F * F * F) * (F * F * F) * (F * F * F) :=
  let right2 := (base_fwd2.2, - base_fwd2.1)%py in
  let left_eye_xy :=
    (cx - right2.1 * inches_to_cm half_base_in,
     cy - right2.2 * inches_to_cm half_base_in)%py in
  let right_eye_xy :=
    (cx + right2.1 * inches_to_cm half_base_in,
     cy + right2.2 * inches_to_cm half_base_in)%py in
  let left_fwd2 := rot2d base_fwd2.1 base_fwd2.2 YAW_OFFSET_DEG in
  let right_fwd2 := rot2d base_fwd2.1 base_fwd2.2 (- YAW_OFFSET_DEG)%py in
  let cp := math_cos (math_radians PITCH_UP_DEG) in
  let sp := math_sin (math_radians PITCH_UP_DEG) in
  let left_fwd3 := (left_fwd2.1 * cp, left_fwd2.2 * cp, sp)%py in
  let right_fwd3 := (right_fwd2.1 * cp, right_fwd2.2 * cp, sp)%py in
  let left_eye_pt := (left_eye_xy.1, left_eye_xy.2, cz) in
  let right_eye_pt := (right_eye_xy.1, right_eye_xy.2, cz) in
  (left_eye_pt, left_fwd3, right_eye_pt, right_fwd3).

(** [run], lines 287-337: the body of [for dir_name, base_fwd2 in dirs]. *)
Definition run_direction (out_dir prefix : string) (gx gy : Z)
    (cx cy cz half_base_in : F) (app : host F) (d : string * (F * F))
    : host F :=
  let '(dir_name, base_fwd2) := d in
  let '(left_eye_pt, left_fwd3, right_eye_pt, right_fwd3) :=
    eye_poses cx cy cz half_base_in base_fwd2 in
  let left_file :=
    path_join out_dir
      (prefix +:+ "_" +:+ str_of_int gx +:+ "_" +:+ str_of_int gy +:+ "_"
         +:+ dir_name +:+ "_left.png") in
  let app := set_camera_and_capture app left_eye_pt left_fwd3 VFOV_DEG left_file in
  let right_file :=
    path_join out_dir
      (prefix +:+ "_" +:+ str_of_int gx +:+ "_" +:+ str_of_int gy +:+ "_"
         +:+ dir_name +:+ "_right.png") in
  set_camera_and_capture app right_eye_pt right_fwd3 VFOV_DEG right_file.

(** [run], line 285: the direction set of a cell. *)
Definition cell_dirs {A} (dirs_cardinal dirs_diagonal : A) (gx gy : Z) : A :=
  if is_corner gx gy then dirs_diagonal else dirs_cardinal.

(** [run], lines 275-337: the body of [for (gx, gy) in positions]. *)
Definition run_cell (out_dir prefix : string)
    (dirs_cardinal dirs_diagonal : list (string * (F * F)))
    (half_base_in : F) (app : host F) (cell : Z * Z) : res (host F) :=
  let '(gx, gy) := cell in
  '(mx_in, my_in, _) ← grid_to_model_in gx gy;
  let cx := inches_to_cm mx_in in
  let cy := inches_to_cm my_in in
  let cz := inches_to_cm EYE_Z_IN in
  let dirs := cell_dirs dirs_cardinal dirs_diagonal gx gy in
  mret (foldl (run_direction out_dir prefix gx gy cx cy cz half_base_in) app dirs).

(** The loop over [positions]: it stops at the first exception, and the
    captures made until then stay with the host. *)
Fixpoint run_cells (out_dir prefix : string)
    (dirs_cardinal dirs_diagonal : list (string * (F * F)))
    (half_base_in : F) (app : host F) (positions : list (Z * Z))
    : option exn * host F :=
  match positions with
  | [] => (None, app)
  | cell :: rest =>
      match run_cell out_dir prefix dirs_cardinal dirs_diagonal
              half_base_in app cell with
      | Ok app' =>
          run_cells out_dir prefix dirs_cardinal dirs_diagonal
            half_base_in app' rest
      | Raise e => (Some e, app)
      end
  end.

(** [run]: [script_dir] is the directory of the script, [file_lines] the
    lines of its positions.txt, [app] the host before the run.  The
    result is the message shown at the end and the host after the run.
    The module constant [HALF_BASE_IN] is evaluated first, as loading the
    script does. *)
Definition run (script_dir : string) (file_lines : list string)
    (app : host F) : outcome * host F :=
  let photos_dir := path_join script_dir "photos" in
  let setup :=
    half_base_in ← HALF_BASE_IN;
    '(prefix, positions) ← parse_positions_txt file_lines;
    let out_dir := path_join photos_dir prefix in
    '(dirs_cardinal, dirs_diagonal) ← direction_sets;
    mret (half_base_in, prefix, positions, out_dir,
          dirs_cardinal, dirs_diagonal) in
  match setup with
  | Raise e => (Failed e, app)
  | Ok (half_base_in, prefix, positions, out_dir,
        dirs_cardinal, dirs_diagonal) =>
      match run_cells out_dir prefix dirs_cardinal dirs_diagonal
              half_base_in app positions with
      | (None, app') => (Completed (path_join photos_dir prefix), app')
      | (Some e, app') => (Failed e, app')
      end
  end.

(** [find_render_workspace]: the loop over [candidates]. *)
Definition candidates : list string :=
  [ "FusionRenderEnvironment"; "RenderEnvironment"; "RenderWorkspace"; "Render" ].

Fixpoint first_workspace {W} (wss : workspaces W) (ids : list string)
    : option W :=
  match ids with
  | [] => None
  | wid :: rest =>
      match wss wid with
      | Some ws => Some ws
      | None => first_workspace wss rest
      end
  end.

Definition find_render_workspace {W} (wss : workspaces W) : option W :=
  first_workspace wss candidates.

(** [set_camera_and_capture], lines 203-209: the look-at target of the
    camera, some distance along the normalized forward vector. *)
Definition capture_target {AV : AdskVector F}
    (eye_pt_cm fwd_vec3 : F * F * F) : F * F * F :=
  let fwd := vector3d_normalize fwd_vec3 in
  (eye_pt_cm.1.1 + fwd.1.1 * lit 10.0,
   eye_pt_cm.1.2 + fwd.1.2 * lit 10.0,
   eye_pt_cm.2 + fwd.2 * lit 10.0)%py.
End Core.
End Capture.

(** ** CaptureView/CaptureView.py *)

Module CaptureView.
Section Core.
Context {F : Type} {PF : PyFloat F}.

Definition CM_PER_IN : F := lit 2.54.

Definition GRID_Z_IN : F := lit 33.577.
Definition EYE_RAISE_IN : F := lit 2.5.
Definition EYE_Z_IN : F := (GRID_Z_IN + EYE_RAISE_IN)%py.

Definition EYE_SEPARATION_IN : F := lit 0.5.
Definition HALF_BASE_IN : res F := (EYE_SEPARATION_IN / lit 2.0)%py.
Definition YAW_OFFSET_DEG : F := lit 50.0.
Definition PITCH_UP_DEG : F := lit 15.0.
Definition VFOV_DEG : F := lit 150.0.

Definition IMG_W : Z := 128.
Definition IMG_H : Z := 128.

Definition X_FROM_GRID_Y_IN : gmap Z F :=
  list_to_map
    [ (0, lit 8.039); (1, lit 16.336); (5, lit 55.519);
      (9, lit 94.702); (10, lit 102.999) ]%Z.

Definition Y_FROM_GRID_X_IN : gmap Z F :=
  list_to_map
    [ (0, lit 6.02); (1, lit 14.317); (5, lit 53.50);
      (9, lit 92.683); (10, lit 100.98) ]%Z.

(** The [for i in range(len(keys) - 1)] loop of [_interp_linear]. *)
Fixpoint find_bracket (index : Z) (keys : list Z) : option (Z * Z) :=
  match keys with
  | k0 :: ((k1 :: _) as rest) =>
      if ((k0 <=? index) && (index <=? k1))%Z then Some (k0, k1)
      else find_bracket index rest
  | _ => None
  end.

Definition _interp_linear (index : Z) (knot_map : gmap Z F) : res F :=
  match knot_map !! index with
  | Some v => Ok v
  | None =>
      let keys := sorted_keys knot_map in
      key_lo ← first_item keys;
      if (index <=? key_lo)%Z then getitem knot_map key_lo
      else
        key_hi ← last_item keys;
        if (index >=? key_hi)%Z then getitem knot_map key_hi
        else
          match find_bracket index keys with
          | None => getitem knot_map key_lo
          | Some (k0, k1) =>
              if (k1 =? k0)%Z then getitem knot_map key_lo
              else
                d ← of_int (k1 - k0);
                n ← of_int (index - k0);
                t ← (n / d)%py;
                v0 ← getitem knot_map k0;
                v1 ← getitem knot_map k1;
                mret (v0 * (lit 1.0 - t) + v1 * t)%py
          end
  end.

Definition grid_to_model_in (gx gy : Z) : res (F * F * F) :=
  mx ← _interp_linear gy X_FROM_GRID_Y_IN;
  my ← _interp_linear gx Y_FROM_GRID_X_IN;
  let mz := GRID_Z_IN in
  mret (mx, my, mz).

Definition inches_to_cm (x_in : F) : F := (x_in * CM_PER_IN)%py.

Definition is_corner (gx gy : Z) : bool :=
  ((gx =? 0) || (gx =? 10))%Z && ((gy =? 0) || (gy =? 10))%Z.

Context {PM : PyMath F}.

Definition rot2d (vx vy deg : F) : F * F :=
  let rad := math_radians deg in
  let c := math_cos rad in
  let s := math_sin rad in
  (vx * c - vy * s, vx * s + vy * c)%py.

Definition norm2d (vx vy : F) : res (F * F) :=
  let mag := math_hypot vx vy in
  if (mag <=? lit 1e-9)%py then mret (lit 0.0, lit 0.0)
  else
    x ← (vx / mag)%py;
    y ← (vy / mag)%py;
    mret (x, y).

(** *** The parser and the driver *)

Context {PB : PyBuiltins}.

(** One turn of the loop over the stripped lines in
    [parse_positions_txt]. *)
Definition parse_line (st : option string * list (Z * Z)) (ln : string)
    : option string * list (Z * Z) :=
  let '(prefix, positions) := st in
  if bool_decide (ln = EmptyString) || startswith "#" ln then st
  else
    match prefix with
    | None => (Some ln, positions)
    | Some _ =>
        match str_split "," ln with
        | [part0; part1] =>
            match gx ← int_of_str (str_strip part0);
                  gy ← int_of_str (str_strip part1);
                  mret (gx, gy) with
            | Ok cell => (prefix, positions ++ [cell])
            | Raise _ => st
            end
        | _ => st
        end
    end.

Definition parse_positions_txt (file_lines : list string)
    : res (string * list (Z * Z)) :=
  let lines := str_strip <$> file_lines in
  match foldl parse_line (None, []) lines with
  | (None, _) =>
      Raise (RuntimeError "positions.txt missing file_prefix on first line.")
  | (Some prefix, positions) => Ok (prefix, positions)
  end.

(** [switch_to_render_workspace]: whether the render workspace exists (it
    is then activated). *)
Definition switch_to_render_workspace {W} (wss : workspaces W) : bool :=
  match wss "FusionRenderEnvironment" with
  | Some _ => true
  | None => false
  end.

(** [set_camera_and_render], line 206: the field of view, clamped. *)
Definition safe_fov {PO : PyFloatOrd F} (v_fov_deg : F) : F :=
  py_max (lit 1.0) (py_min (lit 150.0) v_fov_deg).

(** [set_camera_and_render], lines 211-215: the look-at target of the
    camera, the forward vector scaled to 100 cm. *)
Definition render_target (eye_pt_cm fwd_vec3 : F * F * F) : F * F * F :=
  (eye_pt_cm.1.1 + fwd_vec3.1.1 * lit 100.0,
   eye_pt_cm.1.2 + fwd_vec3.1.2 * lit 100.0,
   eye_pt_cm.2 + fwd_vec3.2 * lit 100.0)%py.

(** [start_and_wait_local_render], lines 180-190: the polling loop.  [t0]
    is the clock when the render is started; an element of [polls] is what
    one pass of the loop observes, the state of the render and (read only
    when the render is still running) the clock.  The result is [None] when
    the loop is still polling after these observations. *)
Fixpoint start_and_wait_local_render {PO : PyFloatOrd F} (t0 timeout_s : F)
    (polls : list (local_render_state * F)) : option (res unit) :=
  match polls with
  | [] => None
  | (state, now) :: polls =>
      match state with
      | FinishedLocalRenderState => Some (Ok tt)
      | FailedLocalRenderState =>
          Some (Raise (RuntimeError "Local render failed."))
      | _ =>
          if (timeout_s <? now - t0)%py then
            Some (Raise (RuntimeError "Local render timed out."))
          else start_and_wait_local_render t0 timeout_s polls
      end
  end.

(** The default of the parameter [timeout_s]. *)
Definition timeout_s : F := lit 300.0.

(** [set_camera_and_render], as the host sees it: one more render request.
    [renderer] is the host's side of the request, what
    [setup_render_settings] and [start_and_wait_local_render] come to for
    it: they return, or one of them raises.  The request is logged in both
    cases. *)
Definition set_camera_and_render (renderer : capture_call F → res unit)
    (app : host F) (eye_pt_cm fwd_vec3 : F * F * F) (v_fov_deg : F)
    (out_path : string) : option exn * host F :=
  let call := CaptureCall eye_pt_cm fwd_vec3 v_fov_deg out_path in
  match renderer call with
  | Ok _ => (None, app ++ [call])
  | Raise e => (Some e, app ++ [call])
  end.

Definition model_xy_cm (gx gy : Z) : res (F * F) :=
  '(mx_in, my_in, _) ← grid_to_model_in gx gy;
  mret (inches_to_cm mx_in, inches_to_cm my_in).

(** [run], lines 249-279. *)
Definition direction_sets
    : res (list (string * (F * F)) * list (string * (F * F))) :=
  p_55 ← model_xy_cm 5 5;
  p_50 ← model_xy_cm 5 0;
  p_105 ← model_xy_cm 10 5;
  let north2 := (p_50.1 - p_55.1, p_50.2 - p_55.2)%py in
  let east2 := (p_105.1 - p_55.1, p_105.2 - p_55.2)%py in
  north2 ← norm2d north2.1 north2.2;
  east2 ← norm2d east2.1 east2.2;
  let south2 := (- north2.1, - north2.2)%py in
  let west2 := (- east2.1, - east2.2)%py in
  ne2 ← norm2d (north2.1 + east2.1)%py (north2.2 + east2.2)%py;
  se2 ← norm2d (south2.1 + east2.1)%py (south2.2 + east2.2)%py;
  sw2 ← norm2d (south2.1 + west2.1)%py (south2.2 + west2.2)%py;
  nw2 ← norm2d (north2.1 + west2.1)%py (north2.2 + west2.2)%py;
  let dirs_cardinal :=
    [ ("north", north2); ("east", east2);
      ("south", south2); ("west", west2) ] in
  let dirs_diagonal :=
    [ ("NE", ne2); ("SE", se2); ("SW", sw2); ("NW", nw2) ] in
  mret (dirs_cardinal, dirs_diagonal).

(** [run], lines 295-321. *)
Definition eye_poses (cx cy cz half_base_in : F) (base_fwd2 : F * F)
    : (F * F * F) * (F * F * F) * (F * F * F) * (F * F * F) :=
  let right2 := (base_fwd2.2, - base_fwd2.1)%py in
  let left_eye_xy :=
    (cx - right2.1 * inches_to_cm half_base_in,
     cy - right2.2 * inches_to_cm half_base_in)%py in
  let right_eye_xy :=
    (cx + right2.1 * inches_to_cm half_base_in,
     cy + right2.2 * inches_to_cm half_base_in)%py in
  let left_fwd2 := rot2d base_fwd2.1 base_fwd2.2 YAW_OFFSET_DEG in
  let right_fwd2 := rot2d base_fwd2.1 base_fwd2.2 (- YAW_OFFSET_DEG)%py in
  let cp := math_cos (math_radians PITCH_UP_DEG) in
  let sp := math_sin (math_radians PITCH_UP_DEG) in
  let left_fwd3 := (left_fwd2.1 * cp, left_fwd2.2 * cp, sp)%py in
  let right_fwd3 := (right_fwd2.1 * cp, right_fwd2.2 * cp, sp)%py in
  let left_eye_pt := (left_eye_xy.1, left_eye_xy.2, cz) in
  let right_eye_pt := (right_eye_xy.1, right_eye_xy.2, cz) in
  (left_eye_pt, left_fwd3, right_eye_pt, right_fwd3).

(** [run], lines 292-343: the body of [for dir_name, base_fwd2 in dirs];
    an exception of the left render leaves the loop before the right
    one. *)
Definition run_direction (renderer : capture_call F → res unit)
    (out_dir prefix : string) (gx gy : Z)
    (cx cy cz half_base_in : F) (app : host F) (d : string * (F * F))
    : option exn * host F :=
  let '(dir_name, base_fwd2) := d in
  let '(left_eye_pt, left_fwd3, right_eye_pt, right_fwd3) :=
    eye_poses cx cy cz half_base_in base_fwd2 in
  let left_file :=
    path_join out_dir
      (prefix +:+ "_" +:+ str_of_int gx +:+ "_" +:+ str_of_int gy +:+ "_"
         +:+ dir_name +:+ "_left.png") in
  match set_camera_and_render renderer app left_eye_pt left_fwd3 VFOV_DEG
          left_file with
  | (Some e, app) => (Some e, app)
  | (None, app) =>
      let right_file :=
        path_join out_dir
          (prefix +:+ "_" +:+ str_of_int gx +:+ "_" +:+ str_of_int gy +:+ "_"
             +:+ dir_name +:+ "_right.png") in
      set_camera_and_render renderer app right_eye_pt right_fwd3 VFOV_DEG
        right_file
  end.

(** The loop over [dirs]: it stops at the first exception. *)
Fixpoint run_directions (renderer : capture_call F → res unit)
    (out_dir prefix : string) (gx gy : Z)
    (cx cy cz half_base_in : F) (app : host F)
    (dirs : list (string * (F * F))) : option exn * host F :=
  match dirs with
  | [] => (None, app)
  | d :: rest =>
      match run_direction renderer out_dir prefix gx gy cx cy cz
              half_base_in app d with
      | (None, app') =>
          run_directions renderer out_dir prefix gx gy cx cy cz
            half_base_in app' rest
      | (Some e, app') => (Some e, app')
      end
  end.

(** [run], lines 282-343: the body of [for (gx, gy) in positions]. *)
Definition run_cell (renderer : capture_call F → res unit)
    (out_dir prefix : string)
    (dirs_cardinal dirs_diagonal : list (string * (F * F)))
    (half_base_in : F) (app : host F) (cell : Z * Z)
    : option exn * host F :=
  let '(gx, gy) := cell in
  match grid_to_model_in gx gy with
  | Raise e => (Some e, app)
  | Ok (mx_in, my_in, _) =>
      let cx := inches_to_cm mx_in in
      let cy := inches_to_cm my_in in
      let cz := inches_to_cm EYE_Z_IN in
      let dirs := if is_corner gx gy then dirs_diagonal else dirs_cardinal in
      run_directions renderer out_dir prefix gx gy cx cy cz half_base_in
        app dirs
  end.

Fixpoint run_cells (renderer : capture_call F → res unit)
    (out_dir prefix : string)
    (dirs_cardinal dirs_diagonal : list (string * (F * F)))
    (half_base_in : F) (app : host F) (positions : list (Z * Z))
    : option exn * host F :=
  match positions with
  | [] => (None, app)
  | cell :: rest =>
      match run_cell renderer out_dir prefix dirs_cardinal dirs_diagonal
              half_base_in app cell with
      | (None, app') =>
          run_cells renderer out_dir prefix dirs_cardinal dirs_diagonal
            half_base_in app' rest
      | (Some e, app') => (Some e, app')
      end
  end.

(** [run], with the same reading of its arguments and result as for
    capture.py. *)
Definition run (renderer : capture_call F → res unit)
    (script_dir : string) (file_lines : list string)
    (app : host F) : outcome * host F :=
  let photos_dir := path_join script_dir "photos" in
  let setup :=
    half_base_in ← HALF_BASE_IN;
    '(prefix, positions) ← parse_positions_txt file_lines;
    let out_dir := path_join photos_dir prefix in
    '(dirs_cardinal, dirs_diagonal) ← direction_sets;
    mret (half_base_in, prefix, positions, out_dir,
          dirs_cardinal, dirs_diagonal) in
  match setup with
  | Raise e => (Failed e, app)
  | Ok (half_base_in, prefix, positions, out_dir,
        dirs_cardinal, dirs_diagonal) =>
      match run_cells renderer out_dir prefix dirs_cardinal dirs_diagonal
              half_base_in app positions with
      | (None, app') => (Completed (path_join photos_dir prefix), app')
      | (Some e, app') => (Failed e, app')
      end
  end.
End Core.
End CaptureView.

(** ** Reference definitions

    The notions the specification uses to state what the scripts compute. *)

(** The smallest and the largest key of a knot mapping. *)
Definition min_key {V} (m : gmap Z V) (k : Z) : Prop :=
  is_Some (m !! k) ∧ ∀ k', is_Some (m !! k') → (k ≤ k')%Z.

Definition max_key {V} (m : gmap Z V) (k : Z) : Prop :=
  is_Some (m !! k) ∧ ∀ k', is_Some (m !! k') → (k' ≤ k)%Z.

(** The specification's contract of [interpolate(index, knots)], over the
    real numbers: the value at an exact knot; between two keys that are
    neighbours among the sorted keys, the point on the line through the two
    knots; outside the range of the keys, the value of the boundary knot. *)
Inductive interpolate_spec (index : Z) (knots : gmap Z R) : R → Prop :=
  | interpolate_exact v :
      knots !! index = Some v →
      interpolate_spec index knots v
  | interpolate_bracket k0 k1 v0 v1 :
      knots !! k0 = Some v0 → knots !! k1 = Some v1 →
      (k0 < index < k1)%Z →
      (∀ k, (k0 < k < k1)%Z → knots !! k = None) →
      interpolate_spec index knots
        (v0 + (IZR index - IZR k0) / (IZR k1 - IZR k0) * (v1 - v0))%R
  | interpolate_clamp_low k v :
      knots !! k = Some v → min_key knots k → (index < k)%Z →
      interpolate_spec index knots v
  | interpolate_clamp_high k v :
      knots !! k = Some v → max_key knots k → (k < index)%Z →
      interpolate_spec index knots v.

(** A knot mapping within the range of [float]: no two keys are
    [float_overflow_threshold] or more apart, so that [float(k1 - k0)]
    returns for all its keys. *)
Definition keys_in_float_range {V} (knots : gmap Z V) : Prop :=
  ∀ k k', is_Some (knots !! k) → is_Some (knots !! k') →
    (k' - k < float_overflow_threshold)%Z.

(** Two knots [2^1024] apart. *)
Definition distant_knots {F} {PF : PyFloat F} : gmap Z F :=
  list_to_map [ (0, lit 1.0); (2 ^ 1024, lit 1.0) ]%Z.


(** The knots of the specification's interpolation scenario. *)
Definition scenario_knots {F} {PF : PyFloat F} : gmap Z F :=
  list_to_map [ (0, lit 8.039); (1, lit 16.336); (5, lit 55.519) ]%Z.

(** The file name convention ["{prefix}_{gx}_{gy}_{direction}_{eye}.png"],
    and the names of one cell in the order of the renders: for each
    direction, the left eye, then the right eye. *)
Definition capture_file_name (prefix : string) (gx gy : Z)
    (direction eye : string) : string :=
  prefix +:+ "_" +:+ str_of_int gx +:+ "_" +:+ str_of_int gy +:+ "_"
    +:+ direction +:+ "_" +:+ eye +:+ ".png".

Definition cell_file_names (prefix : string) (gx gy : Z)
    (directions : list string) : list string :=
  d ← directions;
  eye ← ["left"; "right"];
  [capture_file_name prefix gx gy d eye].

Definition cardinal_names : list string := ["north"; "east"; "south"; "west"].
Definition diagonal_names : list string := ["ne"; "se"; "sw"; "nw"].

(** Lines of positions.txt.  A line is blank or a comment when, once
    stripped, it is empty or starts with [#]; the prefix line is the first
    line that is neither.  A line is a malformed pair when it does not
    split into exactly two parts at the commas, or one of its parts is not
    an integer for [int]. *)
Definition blank_or_comment {PB : PyBuiltins} (ln : string) : Prop :=
  str_strip ln = EmptyString ∨ startswith "#" (str_strip ln) = true.

Definition malformed_pair {PB : PyBuiltins} (ln : string) : Prop :=
  length (str_split "," (str_strip ln)) ≠ 2%nat ∨
  ∃ part, part ∈ str_split "," (str_strip ln) ∧
          raises (int_of_str (str_strip part)).

Definition missing_prefix_error : exn :=
  RuntimeError "positions.txt missing file_prefix on first line.".

(** The first test of [parse_line], on a line that is already stripped. *)
Definition ignored (ln : string) : Prop :=
  ln = EmptyString ∨ startswith "#" ln = true.

(** An arithmetic in which the geometric core of capture.py returns: the
    constant [HALF_BASE_IN] has a value, [grid_to_model_in] returns on
    every cell and [norm2d] on every vector.  The exact reading is one, and
    so is binary64 with any implementation of the [math] functions
    ([real_GeometryReturns] and [float64_GeometryReturns] below). *)
Class GeometryReturns (F : Type) {PF : PyFloat F} {PM : PyMath F} : Prop := {
  half_base_returns : ∃ half : F, Capture.HALF_BASE_IN = Ok half;
  grid_to_model_in_returns (gx gy : Z) :
    ∃ mx my : F, Capture.grid_to_model_in gx gy = Ok (mx, my, Capture.GRID_Z_IN);
  norm2d_returns (vx vy : F) : ∃ u, Capture.norm2d vx vy = Ok u;
}.

(** ** Reference definitions for the further properties *)

(** The index of the nearest cell of the 0..10 grid. *)
Definition clamp_index (i : Z) : Z := Z.max 0 (Z.min 10 i).



(** Every character of a string passes a test. *)
Fixpoint string_forallb (P : ascii → bool) (s : string) : bool :=
  match s with
  | EmptyString => true
  | String c s' => P c && string_forallb P s'
  end.

(** A positions.txt written from a prefix and a list of cells: one line
    for the prefix and one line [gx,gy] for each cell, each ended by a
    line feed, as [readlines] returns them. *)
Definition newline : string := String "010"%char EmptyString.

Definition position_line (cell : Z * Z) : string :=
  str_of_int cell.1 +:+ "," +:+ str_of_int cell.2.

Definition positions_file (prefix : string) (cells : list (Z * Z))
    : list string :=
  (prefix +:+ newline) :: ((λ cell, position_line cell +:+ newline) <$> cells).

(** The characters of [str(n)]: the decimal digits and the minus sign. *)
Definition is_digit (c : ascii) : bool :=
  match Ascii.is_nat c with Some _ => true | None => false end.

Definition is_int_char (c : ascii) : bool :=
  is_digit c || bool_decide (c = "-"%char).

(** The file names [run] gives the captures of a cell, and of a list of
    cells, one cell after the other. *)
Definition cell_names (prefix : string) (cell : Z * Z) : list string :=
  cell_file_names prefix cell.1 cell.2
    (if Capture.is_corner cell.1 cell.2 then diagonal_names else cardinal_names).

Definition run_file_names (prefix : string) (positions : list (Z * Z))
    : list string :=
  positions ≫= cell_names prefix.

(** What follows the direction in a file name, for the two sets of
    directions. *)
Definition name_suffixes (directions : list string) : list string :=
  d ← directions; eye ← ["left"; "right"]; [d +:+ "_" +:+ eye +:+ ".png"].

(** The camera pose of a request: what it asks for, the file apart. *)
Definition call_pose {F} (call : capture_call F) : (F * F * F) * (F * F * F) * F :=
  (call_eye call, call_fwd call, call_vfov call).

(** The diagonal direction set under the names CaptureView.py gives it. *)
Definition view_diagonals {A} (dirs_diagonal : list (string * A))
    : list (string * A) :=
  zip_with (λ name d, (name, d.2)) ["NE"; "SE"; "SW"; "NW"] dirs_diagonal.

(** The requests a loop of CaptureView.py added and how the loop ended
    ([None]: normally): either every request was rendered, or the last one
    raised the exception the loop ended with and the ones before it were
    rendered. *)
Definition rendered_until_failure {F} (renderer : capture_call F → res unit)
    (new : host F) (ended : option exn) : Prop :=
  Forall (λ call, renderer call = Ok tt) new ∨
  ∃ before call e,
    new = before ++ [call] ∧
    Forall (λ call, renderer call = Ok tt) before ∧
    renderer call = Raise e ∧ ended = Some e.


(** In binary64: whether a knot table yields, at two indices, values in
    that order which both lie within [[lo, hi]]. *)
Definition float64_ordered_within (table : gmap Z float) (lo hi : float)
    (i j : Z) : bool :=
  match Capture._interp_linear i table, Capture._interp_linear j table with
  | Ok v, Ok w => PrimFloat.leb lo v && PrimFloat.leb v w && PrimFloat.leb w hi
  | _, _ => false
  end.

(** ** Sorted keys and the bracket search *)

Section KeyLemmas.
Context {V : Type}.
Implicit Types (m : gmap Z V) (k index : Z).

Lemma elem_of_sorted_keys m k : k ∈ sorted_keys m ↔ is_Some (m !! k).
Proof.
  unfold sorted_keys.
  by rewrite merge_sort_Permutation, elem_of_elements, elem_of_dom.
Qed.

Lemma le_sorted_NoDup_lt (l : list Z) :
  StronglySorted Z.le l → NoDup l → StronglySorted Z.lt l.
Proof.
  induction 1 as [|x l Hl IH Hx]; intros Hnd; [constructor|].
  apply NoDup_cons in Hnd as [Hnotin Hnd].
  constructor; [by apply IH|].
  rewrite Forall_forall in Hx |- *. intros y Hy.
  specialize (Hx y Hy). destruct (decide (x = y)) as [->|]; [done|lia].
Qed.

Lemma sorted_keys_lt m : StronglySorted Z.lt (sorted_keys m).
Proof.
  apply le_sorted_NoDup_lt.
  - apply Sorted_StronglySorted; [apply _|]. apply Sorted_merge_sort; apply _.
  - unfold sorted_keys. rewrite merge_sort_Permutation. apply NoDup_elements.
Qed.

Lemma sorted_keys_nil m : sorted_keys m = [] ↔ m = ∅.
Proof.
  split.
  - intros Hnil. apply map_empty. intros k.
    apply eq_None_not_Some. rewrite <-elem_of_sorted_keys, Hnil.
    apply not_elem_of_nil.
  - intros ->. done.
Qed.
End KeyLemmas.

Section Bracket.
Implicit Types (keys : list Z) (k index : Z).

Lemma sorted_lt_head_le lo keys k :
  StronglySorted Z.lt (lo :: keys) → k ∈ lo :: keys → (lo ≤ k)%Z.
Proof.
  intros Hs Hk. apply StronglySorted_inv in Hs as [_ Hlo].
  apply elem_of_cons in Hk as [->|Hk]; [lia|].
  rewrite Forall_forall in Hlo. specialize (Hlo k Hk). lia.
Qed.

Lemma sorted_lt_last_ge keys hi k :
  StronglySorted Z.lt keys → last keys = Some hi → k ∈ keys → (k ≤ hi)%Z.
Proof.
  intros Hs Hlast Hk. apply last_Some in Hlast as [l' ->].
  apply elem_of_app in Hk as [Hk|Hk].
  - pose proof (StronglySorted_app_1_elem_of _ _ _ k hi Hs Hk) as Hlt.
    assert (k < hi)%Z; [apply Hlt; set_solver|lia].
  - apply list_elem_of_singleton in Hk as ->. lia.
Qed.

(** The loop finds the pair of neighbours around an index that lies
    strictly inside the range of a strictly increasing key list and is not
    itself a key. *)
Lemma find_bracket_inside index lo keys hi :
  StronglySorted Z.lt (lo :: keys) →
  last (lo :: keys) = Some hi →
  (lo < index < hi)%Z → index ∉ lo :: keys →
  ∃ k0 k1, Capture.find_bracket index (lo :: keys) = Some (k0, k1) ∧
    (k0 < index < k1)%Z ∧ k0 ∈ lo :: keys ∧ k1 ∈ lo :: keys ∧
    ∀ k, k ∈ lo :: keys → (k ≤ k0 ∨ k1 ≤ k)%Z.
Proof.
  revert lo. induction keys as [|k1 keys IH]; intros lo Hs Hlast Hin Hnotin.
  { simpl in Hlast. simplify_eq. lia. }
  apply not_elem_of_cons in Hnotin as [Hne_lo Hnotin].
  pose proof Hnotin as Hnotin'.
  apply not_elem_of_cons in Hnotin' as [Hne_k1 _].
  apply StronglySorted_inv in Hs as [Hs Hlo].
  assert (lo < k1)%Z as Hlok1 by (by apply Forall_cons in Hlo as [? _]).
  simpl. destruct (decide (index < k1)%Z) as [Hlt|Hge].
  - exists lo, k1.
    replace ((lo <=? index) && (index <=? k1))%Z with true
      by (symmetry; apply andb_true_iff; lia).
    split; [done|]. split; [lia|].
    split; [by left|]. split; [by right; left|].
    intros k Hk. apply elem_of_cons in Hk as [->|Hk]; [lia|].
    right. by eapply sorted_lt_head_le.
  - replace ((lo <=? index) && (index <=? k1))%Z with false
      by (symmetry; apply andb_false_iff; lia).
    destruct (IH k1) as (a & b & Hfind & Hab & Ha & Hb & Hsep);
      [done|by rewrite last_cons_cons in Hlast|lia|done|].
    exists a, b. split; [done|]. split; [lia|].
    split; [by right|]. split; [by right|].
    intros k Hk. apply elem_of_cons in Hk as [->|Hk]; [|by apply Hsep].
    left. assert (k1 ≤ a)%Z; [by eapply sorted_lt_head_le|lia].
Qed.
End Bracket.

(** ** Interpolation: the control flow, in every arithmetic *)

Section InterpControl.
Context {F : Type} {PF : PyFloat F}.
Implicit Types (m : gmap Z F) (k index : Z) (v : F).

Lemma getitem_Some m k v : m !! k = Some v → getitem m k = Ok v.
Proof. unfold getitem. by intros ->. Qed.

Lemma min_key_head m lo keys :
  sorted_keys m = lo :: keys → min_key m lo.
Proof.
  intros Hkeys. split.
  - apply elem_of_sorted_keys. rewrite Hkeys. set_solver.
  - intros k' Hk'. apply elem_of_sorted_keys in Hk'.
    pose proof (sorted_keys_lt m) as Hs. rewrite Hkeys in Hs, Hk'.
    by eapply sorted_lt_head_le.
Qed.

Lemma max_key_last m hi :
  last (sorted_keys m) = Some hi → max_key m hi.
Proof.
  intros Hlast. split.
  - apply elem_of_sorted_keys. by apply last_Some_elem_of.
  - intros k' Hk'. apply elem_of_sorted_keys in Hk'.
    eapply sorted_lt_last_ge; [apply (sorted_keys_lt m)|done..].
Qed.

Lemma min_key_unique m k k' : min_key m k → min_key m k' → k = k'.
Proof. intros [? Hk] [? Hk']. apply Z.le_antisymm; auto. Qed.

Lemma max_key_unique m k k' : max_key m k → max_key m k' → k = k'.
Proof. intros [? Hk] [? Hk']. apply Z.le_antisymm; auto. Qed.

(** A non-empty map has a smallest and a largest key: the two ends of
    [sorted(knot_map.keys())]. *)
Lemma sorted_keys_ends m :
  m ≠ ∅ →
  ∃ lo keys hi, sorted_keys m = lo :: keys ∧ last (lo :: keys) = Some hi ∧
    min_key m lo ∧ max_key m hi.
Proof.
  intros Hne. destruct (sorted_keys m) as [|lo keys] eqn:Hkeys.
  { by apply sorted_keys_nil in Hkeys. }
  destruct (last (lo :: keys)) as [hi|] eqn:Hlast.
  2:{ by apply last_None in Hlast. }
  exists lo, keys, hi. split_and!; [done..| |].
  - by eapply min_key_head.
  - apply max_key_last. by rewrite Hkeys.
Qed.

Lemma interp_linear_exact index m v :
  m !! index = Some v → Capture._interp_linear index m = Ok v.
Proof. unfold Capture._interp_linear. by intros ->. Qed.

Lemma interp_linear_below index m k v :
  m !! k = Some v → min_key m k → (index < k)%Z →
  Capture._interp_linear index m = Ok v.
Proof.
  intros Hk Hmin Hlt. unfold Capture._interp_linear.
  destruct (m !! index) eqn:Hidx.
  { destruct Hmin as [_ Hmin]. specialize (Hmin index). 
    assert (k ≤ index)%Z; [by apply Hmin|lia]. }
  destruct (sorted_keys_ends m) as (lo & keys & hi & -> & _ & Hlo & _).
  { intros ->. by rewrite lookup_empty in Hk. }
  rewrite (min_key_unique _ _ _ Hlo Hmin). simpl.
  replace (index <=? k)%Z with true by (symmetry; apply Z.leb_le; lia).
  by apply getitem_Some.
Qed.

Lemma interp_linear_above index m k v :
  m !! k = Some v → max_key m k → (k < index)%Z →
  Capture._interp_linear index m = Ok v.
Proof.
  intros Hk Hmax Hlt. unfold Capture._interp_linear.
  destruct (m !! index) eqn:Hidx.
  { destruct Hmax as [_ Hmax]. specialize (Hmax index).
    assert (index ≤ k)%Z; [by apply Hmax|lia]. }
  destruct (sorted_keys_ends m) as (lo & keys & hi & -> & Hlast & Hlo & Hhi).
  { intros ->. by rewrite lookup_empty in Hk. }
  rewrite (max_key_unique _ _ _ Hmax Hhi) in *. simpl first_item. cbn [mbind res_bind].
  assert (lo ≤ hi)%Z by (destruct Hlo as [_ Hlo]; apply Hlo, Hhi).
  replace (index <=? lo)%Z with false by (symmetry; apply Z.leb_gt; lia).
  unfold last_item. rewrite Hlast. cbn [mbind res_bind].
  replace (index >=? hi)%Z with true by (symmetry; apply Z.geb_le; lia).
  by apply getitem_Some.
Qed.

Lemma interp_linear_between index m k0 k1 v0 v1 :
  m !! k0 = Some v0 → m !! k1 = Some v1 → (k0 < index < k1)%Z →
  (∀ k, (k0 < k < k1)%Z → m !! k = None) →
  Capture._interp_linear index m =
    d ← of_int (k1 - k0);
    n ← of_int (index - k0);
    t ← (n / d)%py;
    mret (v0 * (lit 1.0 - t) + v1 * t)%py.
Proof.
  intros Hk0 Hk1 Hin Hgap. unfold Capture._interp_linear.
  rewrite (Hgap index Hin).
  destruct (sorted_keys_ends m) as (lo & keys & hi & Hkeys & Hlast & Hlo & Hhi).
  { intros ->. by rewrite lookup_empty in Hk0. }
  rewrite Hkeys. simpl first_item. cbn [mbind res_bind].
  assert (lo ≤ k0)%Z by (destruct Hlo as [_ Hlo]; apply Hlo; eauto).
  assert (k1 ≤ hi)%Z by (destruct Hhi as [_ Hhi]; apply Hhi; eauto).
  replace (index <=? lo)%Z with false by (symmetry; apply Z.leb_gt; lia).
  unfold last_item. rewrite Hlast. cbn [mbind res_bind].
  rewrite Z.geb_leb.
  replace (hi <=? index)%Z with false by (symmetry; apply Z.leb_gt; lia).
  destruct (find_bracket_inside index lo keys hi)
    as (a & b & -> & Hab & Ha & Hb & Hsep).
  { rewrite <-Hkeys. apply sorted_keys_lt. }
  { done. }
  { lia. }
  { rewrite <-Hkeys, elem_of_sorted_keys, (Hgap index Hin). by intros []. }
  rewrite <-Hkeys in Ha, Hb, Hsep. setoid_rewrite elem_of_sorted_keys in Hsep.
  apply elem_of_sorted_keys in Ha, Hb.
  assert (a = k0) as ->.
  { destruct (Hsep k0) as [?|?]; [eauto|..|lia].
    destruct (decide (k0 < a)%Z); [|lia].
    rewrite (Hgap a) in Ha; [by destruct Ha|lia]. }
  assert (b = k1) as ->.
  { destruct (Hsep k1) as [?|?]; [eauto|lia|].
    destruct (decide (b < k1)%Z); [|lia].
    rewrite (Hgap b) in Hb; [by destruct Hb|lia]. }
  replace (k1 =? k0)%Z with false by (symmetry; apply Z.eqb_neq; lia).
  rewrite (getitem_Some _ _ _ Hk0), (getitem_Some _ _ _ Hk1).
  destruct (of_int (k1 - k0)) as [d|]; [|done].
  destruct (of_int (index - k0)) as [n|]; [|done].
  cbn [mbind res_bind]. destruct (n / d)%py; done.
Qed.
End InterpControl.

(** ** Interpolation in exact arithmetic *)

Section RealInterp.
Implicit Types (m : gmap Z R) (k index : Z) (v : R).

Lemma real_lit_one : lit (F:=R) 1.0 = 1%R.
Proof. unfold lit, real_PyFloat, Q2R. simpl. lra. Qed.

Lemma real_fdiv_ok (x y : R) : y ≠ 0%R → (x / y)%py = Ok (x / y)%R.
Proof. intros Hy. unfold fdiv, real_PyFloat. by destruct (decide (y = 0%R)). Qed.

Lemma float_overflow_threshold_large : (2 ^ 64 < float_overflow_threshold)%Z.
Proof. reflexivity. Qed.

Lemma real_of_int_ok (n : Z) :
  (Z.abs n < float_overflow_threshold)%Z → of_int (F:=R) n = Ok (IZR n).
Proof. intros Hn. unfold of_int, real_PyFloat. by destruct (decide _). Qed.

Lemma real_of_int_overflow (n : Z) :
  (float_overflow_threshold ≤ Z.abs n)%Z →
  of_int (F:=R) n = Raise OverflowError.
Proof.
  intros Hn. unfold of_int, real_PyFloat. destruct (decide _); [lia|done].
Qed.

Lemma real_interp_linear_between index m k0 k1 v0 v1 :
  m !! k0 = Some v0 → m !! k1 = Some v1 → (k0 < index < k1)%Z →
  (∀ k, (k0 < k < k1)%Z → m !! k = None) →
  (k1 - k0 < float_overflow_threshold)%Z →
  Capture._interp_linear index m =
    Ok (v0 + (IZR index - IZR k0) / (IZR k1 - IZR k0) * (v1 - v0))%R.
Proof.
  intros Hk0 Hk1 Hin Hgap Hrange.
  rewrite (interp_linear_between index m k0 k1 v0 v1) by done.
  assert (IZR k1 - IZR k0 ≠ 0)%R as Hd.
  { rewrite <-minus_IZR. apply not_0_IZR. lia. }
  rewrite !real_of_int_ok by lia. cbn [mbind res_bind].
  rewrite !minus_IZR, real_fdiv_ok by done.
  cbn [mbind res_bind mret res_ret]. f_equal.
  rewrite real_lit_one. unfold fadd, fmul, fsub, real_PyFloat.
  field. done.
Qed.

(** Between two neighbouring keys too far apart for [float], the
    conversion of their distance raises. *)
Lemma real_interp_linear_overflow index m k0 k1 v0 v1 :
  m !! k0 = Some v0 → m !! k1 = Some v1 → (k0 < index < k1)%Z →
  (∀ k, (k0 < k < k1)%Z → m !! k = None) →
  (float_overflow_threshold ≤ k1 - k0)%Z →
  Capture._interp_linear index m = Raise OverflowError.
Proof.
  intros Hk0 Hk1 Hin Hgap Hrange.
  rewrite (interp_linear_between index m k0 k1 v0 v1) by done.
  by rewrite (real_of_int_overflow (k1 - k0)) by lia.
Qed.

Lemma interpolate_spec_sound index m v :
  keys_in_float_range m →
  interpolate_spec index m v → Capture._interp_linear index m = Ok v.
Proof.
  intros Hrange. destruct 1.
  - by apply interp_linear_exact.
  - apply real_interp_linear_between; [done..|]. apply Hrange; eauto.
  - by eapply interp_linear_below.
  - by eapply interp_linear_above.
Qed.

Lemma interpolate_spec_total index m :
  m ≠ ∅ → ∃ v, interpolate_spec index m v.
Proof.
  intros Hne.
  destruct (m !! index) as [v|] eqn:Hidx.
  { exists v. by constructor. }
  destruct (sorted_keys_ends m Hne)
    as (lo & keys & hi & Hkeys & Hlast & Hlo & Hhi).
  destruct (Hlo) as [[vlo Hvlo] _]. destruct (Hhi) as [[vhi Hvhi] _].
  destruct (decide (index < lo)%Z).
  { exists vlo. by eapply interpolate_clamp_low. }
  destruct (decide (hi < index)%Z).
  { exists vhi. by eapply interpolate_clamp_high. }
  assert (index ≠ lo) by (intros ->; congruence).
  assert (index ≠ hi) by (intros ->; congruence).
  destruct (find_bracket_inside index lo keys hi)
    as (k0 & k1 & _ & Hk & Hk0 & Hk1 & Hsep).
  { rewrite <-Hkeys. apply sorted_keys_lt. }
  { done. }
  { lia. }
  { rewrite <-Hkeys, elem_of_sorted_keys, Hidx. by intros []. }
  rewrite <-Hkeys in Hk0, Hk1, Hsep.
  setoid_rewrite elem_of_sorted_keys in Hsep.
  apply elem_of_sorted_keys in Hk0 as [v0 Hv0], Hk1 as [v1 Hv1].
  eexists. eapply (interpolate_bracket _ _ k0 k1); [done..|].
  intros k Hkk. apply eq_None_not_Some. intros Hsome.
  destruct (Hsep k Hsome); lia.
Qed.

(** C1, amended.  In every arithmetic, binary64 included, and for every
    knot mapping (a dictionary: its integer keys are distinct) and every
    integer index, [_interp_linear] returns the stored value at an exact
    knot key and the value of the boundary knot below the smallest and
    above the largest key; strictly between two adjacent sorted keys
    [k0 < k1] it computes [t = (index - k0) / float(k1 - k0)] and returns
    [v0 * (1.0 - t) + v1 * t], or raises what a conversion to [float]
    raises.  In exact arithmetic, for every non-empty knot mapping no two
    keys of which are [2^1024 - 2^970] or more apart, it returns a value,
    that value is the one the specification's contract [interpolate_spec]
    gives, [v0 + (index - k0) / (k1 - k0) * (v1 - v0)] between two adjacent
    keys, and the contract gives no other; binary64 rounds that value. *)
Theorem interp_linear_refines_spec :
  (∀ (F : Type) (PF : PyFloat F) (knots : gmap Z F) (index : Z),
     (∀ v : F, knots !! index = Some v →
        Capture._interp_linear index knots = Ok v) ∧
     (∀ k (v : F), knots !! k = Some v → min_key knots k → (index < k)%Z →
        Capture._interp_linear index knots = Ok v) ∧
     (∀ k (v : F), knots !! k = Some v → max_key knots k → (k < index)%Z →
        Capture._interp_linear index knots = Ok v) ∧
     (∀ k0 k1 (v0 v1 : F),
        knots !! k0 = Some v0 → knots !! k1 = Some v1 →
        (k0 < index < k1)%Z →
        (∀ k, (k0 < k < k1)%Z → knots !! k = None) →
        Capture._interp_linear index knots =
          d ← of_int (k1 - k0);
          n ← of_int (index - k0);
          t ← (n / d)%py;
          mret (v0 * (lit 1.0 - t) + v1 * t)%py)) ∧
  (∀ (knots : gmap Z R) (index : Z),
     knots ≠ ∅ →
     keys_in_float_range knots →
     ∃ v, Capture._interp_linear index knots = Ok v ∧
          interpolate_spec index knots v ∧
          ∀ v', interpolate_spec index knots v' → v' = v).
Proof.
  split.
  - intros F PF knots index. split_and!.
    + apply interp_linear_exact.
    + apply interp_linear_below.
    + apply interp_linear_above.
    + apply interp_linear_between.
  - intros knots index Hne Hrange.
    destruct (interpolate_spec_total index knots Hne) as [v Hv].
    exists v. split_and!; [by apply interpolate_spec_sound|done|].
    intros v' Hv'. apply (interpolate_spec_sound _ _ _ Hrange) in Hv, Hv'.
    congruence.
Qed.
End RealInterp.

Lemma scenario_keys_in_float_range {F : Type} {PF : PyFloat F} :
  keys_in_float_range (scenario_knots (F:=F)).
Proof.
  assert (∀ k, is_Some (scenario_knots (F:=F) !! k) → (0 ≤ k ≤ 5)%Z) as Hkeys.
  { intros k [v Hk]. unfold scenario_knots in Hk.
    apply elem_of_list_to_map_2 in Hk.
    rewrite !elem_of_cons, elem_of_nil in Hk.
    destruct Hk as [[= -> _]|[[= -> _]|[[= -> _]|[]]]]; lia. }
  intros k k' Hk Hk'. apply Hkeys in Hk, Hk'.
  pose proof float_overflow_threshold_large. lia.
Qed.

(** The theorem at the scenario knots and index 3. *)
Lemma interp_linear_refines_spec_witness :
  ∃ v, Capture._interp_linear 3 (scenario_knots (F:=R)) = Ok v ∧
       interpolate_spec 3 scenario_knots v ∧
       ∀ v', interpolate_spec 3 scenario_knots v' → v' = v.
Proof.
  apply (proj2 interp_linear_refines_spec scenario_knots 3%Z).
  - unfold scenario_knots. simpl. apply insert_non_empty.
  - apply scenario_keys_in_float_range.
Defined.

(** C1 as stated fails: "every non-empty knot mapping" includes mappings
    with two adjacent keys so far apart that [float(k1 - k0)] raises
    [OverflowError].  On the knots [{0: 1.0, 2^1024: 1.0}] and index 1 the
    function raises, in binary64 and in the exact reading alike, where the
    contract gives the value 1.0; the conversion raises from
    [2^1024 - 2^970] on and returns the largest float just below. *)
Lemma interp_linear_raises_on_distant_keys :
  distant_knots (F:=R) ≠ ∅ ∧
  interpolate_spec 1 distant_knots
    (1 + (IZR 1 - IZR 0) / (IZR (2 ^ 1024) - IZR 0) * (1 - 1))%R ∧
  Capture._interp_linear 1 (distant_knots (F:=float)) = Raise OverflowError ∧
  Capture._interp_linear 1 (distant_knots (F:=R)) = Raise OverflowError ∧
  of_int (F:=float) float_overflow_threshold = Raise OverflowError ∧
  of_int (F:=float) (float_overflow_threshold - 1) =
    Ok 0x1.fffffffffffffp+1023%float.
Proof.
  assert (distant_knots (F:=R) !! 0%Z = Some 1%R) as H0.
  { apply elem_of_list_to_map_1.
    - by apply (bool_decide_unpack _).
    - rewrite real_lit_one. apply elem_of_cons. by left. }
  assert (distant_knots (F:=R) !! (2 ^ 1024)%Z = Some 1%R) as H1.
  { apply elem_of_list_to_map_1.
    - by apply (bool_decide_unpack _).
    - rewrite real_lit_one. apply elem_of_cons. right. apply elem_of_cons. by left. }
  assert (0 < 1 < 2 ^ 1024)%Z as Hin by (split; reflexivity).
  assert (∀ k, (0 < k < 2 ^ 1024)%Z → distant_knots (F:=R) !! k = None) as Hgap.
  { intros k Hk. apply not_elem_of_list_to_map_1. cbn [fmap list_fmap fst].
    set (far := (2 ^ 1024)%Z) in *.
    rewrite !elem_of_cons, elem_of_nil. lia. }
  split_and!.
  - intros Hempty. by rewrite Hempty, lookup_empty in H0.
  - by apply (interpolate_bracket 1 distant_knots 0 (2 ^ 1024) 1 1).
  - vm_compute. reflexivity.
  - apply (real_interp_linear_overflow 1 distant_knots 0 (2 ^ 1024) 1 1);
      [done..|]. by vm_compute.
  - vm_compute. reflexivity.
  - vm_compute. reflexivity.
Qed.

(** The scenario: index 3 lies between the knots 1 and 5. *)
Lemma real_lit (n : Z) (d : positive) :
  lit (F:=R) (n # d) = (IZR n / IZR (Zpos d))%R.
Proof. reflexivity. Qed.

Lemma scenario_value_real :
  Capture._interp_linear 3 (scenario_knots (F:=R)) = Ok 35.9275%R.
Proof.
  rewrite (real_interp_linear_between 3 scenario_knots 1 5
             (lit 16.336) (lit 55.519)).
  - f_equal. rewrite !real_lit. lra.
  - reflexivity.
  - reflexivity.
  - lia.
  - intros k Hk.
    assert (k = 2 ∨ k = 3 ∨ k = 4)%Z as [->|[->| ->]] by lia; reflexivity.
  - reflexivity.
Qed.

(** In binary64 the value prints as 35.927499999999995. *)
Lemma scenario_value_float64 :
  Capture._interp_linear 3 (scenario_knots (F:=float)) =
    Ok 0x1.1f6b851eb851ep+5%float.
Proof. vm_compute. reflexivity. Qed.

(** ** The two knot tables, in every arithmetic *)

Section Tables.
Context {F : Type} {PF : PyFloat F}.

Lemma X_table_keys (k : Z) :
  is_Some (Capture.X_FROM_GRID_Y_IN (F:=F) !! k) ↔ k ∈ [0; 1; 5; 9; 10]%Z.
Proof.
  rewrite <-elem_of_dom. unfold Capture.X_FROM_GRID_Y_IN.
  by rewrite dom_list_to_map_L, elem_of_list_to_set.
Qed.

Lemma Y_table_keys (k : Z) :
  is_Some (Capture.Y_FROM_GRID_X_IN (F:=F) !! k) ↔ k ∈ [0; 1; 5; 9; 10]%Z.
Proof.
  rewrite <-elem_of_dom. unfold Capture.Y_FROM_GRID_X_IN.
  by rewrite dom_list_to_map_L, elem_of_list_to_set.
Qed.

Lemma table_keys_range (k : Z) : k ∈ [0; 1; 5; 9; 10]%Z → (0 ≤ k ≤ 10)%Z.
Proof. rewrite !elem_of_cons, elem_of_nil. lia. Qed.

Lemma X_table_below (index : Z) :
  (index < 0)%Z →
  Capture._interp_linear index Capture.X_FROM_GRID_Y_IN = Ok (lit (F:=F) 8.039).
Proof.
  intros Hlt. apply (interp_linear_below _ _ 0); [done| |done].
  split; [by eexists|]. intros k' Hk'. apply X_table_keys, table_keys_range in Hk'. lia.
Qed.

Lemma X_table_above (index : Z) :
  (10 < index)%Z →
  Capture._interp_linear index Capture.X_FROM_GRID_Y_IN = Ok (lit (F:=F) 102.999).
Proof.
  intros Hlt. apply (interp_linear_above _ _ 10); [done| |done].
  split; [by eexists|]. intros k' Hk'. apply X_table_keys, table_keys_range in Hk'. lia.
Qed.

Lemma Y_table_below (index : Z) :
  (index < 0)%Z →
  Capture._interp_linear index Capture.Y_FROM_GRID_X_IN = Ok (lit (F:=F) 6.02).
Proof.
  intros Hlt. apply (interp_linear_below _ _ 0); [done| |done].
  split; [by eexists|]. intros k' Hk'. apply Y_table_keys, table_keys_range in Hk'. lia.
Qed.

Lemma Y_table_above (index : Z) :
  (10 < index)%Z →
  Capture._interp_linear index Capture.Y_FROM_GRID_X_IN = Ok (lit (F:=F) 100.98).
Proof.
  intros Hlt. apply (interp_linear_above _ _ 10); [done| |done].
  split; [by eexists|]. intros k' Hk'. apply Y_table_keys, table_keys_range in Hk'. lia.
Qed.
End Tables.

(** ** Binary64: the tables interpolate and [norm2d] divides safely *)

Section Float64.

Lemma returns_Ok {A} (m : res A) : returns m = true → ∃ a, m = Ok a.
Proof. destruct m; [by eexists|done]. Qed.

(** A magnitude that is not [<= 1e-9] (it is larger, or not a number) is
    not a zero: dividing by it does not raise. *)
Lemma float64_above_tiny_nonzero (mag : float) :
  (mag <=? lit 1e-9)%py = false → PrimFloat.eqb mag PrimFloat.zero = false.
Proof.
  unfold fle, float64_PyFloat.
  rewrite FloatAxioms.leb_spec, FloatAxioms.eqb_spec.
  destruct (Prim2SF mag) as [[]|[]| |[] m e]; intros Hle;
    try reflexivity; vm_compute in Hle; done.
Qed.

(** The indices 0..10, by evaluation. *)
Lemma float64_tables_return_inside :
  forallb (λ index,
      returns (Capture._interp_linear (F:=float) index Capture.X_FROM_GRID_Y_IN) &&
      returns (Capture._interp_linear (F:=float) index Capture.Y_FROM_GRID_X_IN))
    (Z.of_nat <$> seq 0 11) = true.
Proof. vm_compute. reflexivity. Qed.

Lemma float64_tables_return (index : Z) :
  (∃ v : float, Capture._interp_linear index Capture.X_FROM_GRID_Y_IN = Ok v) ∧
  (∃ v : float, Capture._interp_linear index Capture.Y_FROM_GRID_X_IN = Ok v).
Proof.
  destruct (decide (index < 0)%Z).
  { split; eexists; [by apply X_table_below|by apply Y_table_below]. }
  destruct (decide (10 < index)%Z).
  { split; eexists; [by apply X_table_above|by apply Y_table_above]. }
  pose proof float64_tables_return_inside as Hall.
  rewrite forallb_forall in Hall. specialize (Hall index).
  rewrite andb_true_iff in Hall. destruct Hall as [HX HY].
  { apply list_elem_of_In, list_elem_of_fmap. exists (Z.to_nat index).
    split; [lia|]. apply elem_of_seq. lia. }
  split; by apply returns_Ok.
Qed.

Lemma float64_norm2d_returns {PM : PyMath float} (vx vy : float) :
  ∃ u, Capture.norm2d vx vy = Ok u.
Proof.
  unfold Capture.norm2d.
  destruct (math_hypot vx vy <=? lit 1e-9)%py eqn:Hmag; [by eexists|].
  apply float64_above_tiny_nonzero in Hmag.
  unfold fdiv, float64_PyFloat. rewrite Hmag. by eexists.
Qed.


Lemma float64_half_base : Capture.HALF_BASE_IN (F:=float) = Ok (lit 0.25).
Proof. vm_compute. reflexivity. Qed.

Global Instance float64_GeometryReturns {PM : PyMath float} :
  GeometryReturns float.
Proof.
  split.
  - eexists. apply float64_half_base.
  - intros gx gy. unfold Capture.grid_to_model_in.
    destruct (float64_tables_return gy) as [[mx ->] _].
    destruct (float64_tables_return gx) as [_ [my ->]].
    by exists mx, my.
  - apply float64_norm2d_returns.
Qed.
End Float64.

(** ** The exact reading: [norm2d], the constants, the tables *)

Section RealGeometry.
Local Open Scope R_scope.
Implicit Types (x y : R).

Lemma real_lit_zero : lit (F:=R) 0.0 = 0.
Proof. rewrite real_lit. lra. Qed.

Lemma real_lit_tiny : lit (F:=R) 1e-9 = 1e-9.
Proof.
  change (lit (F:=R) 1e-9) with (lit (F:=R) (1 # 1000000000)).
  rewrite real_lit. lra.
Qed.

Lemma real_fle x y : (x <=? y)%py = bool_decide (x <= y).
Proof. reflexivity. Qed.

Lemma real_hypot x y : math_hypot x y = sqrt (x * x + y * y).
Proof. reflexivity. Qed.

Lemma sqrt_sum_squares_sq x y :
  sqrt (x * x + y * y) * sqrt (x * x + y * y) = x * x + y * y.
Proof. apply sqrt_sqrt. nra. Qed.

Lemma norm2d_small x y :
  sqrt (x * x + y * y) <= 1e-9 → Capture.norm2d x y = Ok (0, 0).
Proof.
  intros Hmag. unfold Capture.norm2d.
  rewrite real_fle, real_hypot, real_lit_tiny, bool_decide_eq_true_2 by done.
  by rewrite real_lit_zero.
Qed.

Lemma norm2d_large x y :
  1e-9 < sqrt (x * x + y * y) →
  Capture.norm2d x y =
    Ok (x / sqrt (x * x + y * y), y / sqrt (x * x + y * y)).
Proof.
  intros Hmag. unfold Capture.norm2d.
  rewrite real_fle, real_hypot, real_lit_tiny, bool_decide_eq_false_2 by lra.
  rewrite !real_fdiv_ok by lra. reflexivity.
Qed.

Lemma norm2d_total x y : ∃ u, Capture.norm2d x y = Ok u.
Proof.
  destruct (Rle_dec (sqrt (x * x + y * y)) 1e-9).
  - eexists. by apply norm2d_small.
  - eexists. apply norm2d_large. lra.
Qed.


Lemma real_yaw : math_radians (Capture.YAW_OFFSET_DEG (F:=R)) = 50 * (PI / 180).
Proof.
  unfold Capture.YAW_OFFSET_DEG. rewrite !real_lit.
  unfold math_radians, real_PyMath, fneg, real_PyFloat. lra.
Qed.

Lemma real_yaw_neg :
  math_radians (- Capture.YAW_OFFSET_DEG (F:=R))%py = - (50 * (PI / 180)).
Proof.
  unfold Capture.YAW_OFFSET_DEG. rewrite !real_lit.
  unfold math_radians, real_PyMath, fneg, real_PyFloat. lra.
Qed.

Lemma real_half_base : Capture.HALF_BASE_IN (F:=R) = Ok 0.25.
Proof.
  unfold Capture.HALF_BASE_IN, Capture.EYE_SEPARATION_IN.
  rewrite !real_lit, real_fdiv_ok by lra. f_equal. lra.
Qed.

Lemma real_inches_to_cm x : Capture.inches_to_cm x = x * 2.54.
Proof.
  unfold Capture.inches_to_cm, Capture.CM_PER_IN. rewrite !real_lit.
  unfold fmul, real_PyFloat. lra.
Qed.


Lemma real_interp_linear_returns (index : Z) (m : gmap Z R) :
  m ≠ ∅ → keys_in_float_range m →
  ∃ v, Capture._interp_linear index m = Ok v.
Proof.
  intros Hne Hrange. destruct (interpolate_spec_total index m Hne) as [v Hv].
  exists v. by apply interpolate_spec_sound.
Qed.

Lemma tables_in_float_range {F : Type} {PF : PyFloat F} :
  keys_in_float_range (Capture.X_FROM_GRID_Y_IN (F:=F)) ∧
  keys_in_float_range (Capture.Y_FROM_GRID_X_IN (F:=F)).
Proof.
  pose proof float_overflow_threshold_large.
  split; intros k k' Hk Hk'.
  - apply X_table_keys, table_keys_range in Hk, Hk'. lia.
  - apply Y_table_keys, table_keys_range in Hk, Hk'. lia.
Qed.

Lemma real_tables_return (index : Z) :
  (∃ v : R, Capture._interp_linear index Capture.X_FROM_GRID_Y_IN = Ok v) ∧
  (∃ v : R, Capture._interp_linear index Capture.Y_FROM_GRID_X_IN = Ok v).
Proof.
  split; apply real_interp_linear_returns.
  - unfold Capture.X_FROM_GRID_Y_IN. simpl. apply insert_non_empty.
  - exact (proj1 tables_in_float_range).
  - unfold Capture.Y_FROM_GRID_X_IN. simpl. apply insert_non_empty.
  - exact (proj2 tables_in_float_range).
Qed.

Global Instance real_GeometryReturns : GeometryReturns R.
Proof.
  split.
  - eexists. apply real_half_base.
  - intros gx gy. unfold Capture.grid_to_model_in.
    destruct (real_tables_return gy) as [[mx ->] _].
    destruct (real_tables_return gx) as [_ [my ->]].
    by exists mx, my.
  - apply norm2d_total.
Qed.
End RealGeometry.

(** ** The grid-to-model mapping *)

Section Grid.
Local Open Scope R_scope.

(** C3.  For every grid cell [(gx, gy)], [grid_to_model_in] returns (it
    does not raise) the model X obtained by interpolating the grid's Y
    index [gy] over [X_FROM_GRID_Y_IN], the model Y obtained by
    interpolating the grid's X index [gx] over [Y_FROM_GRID_X_IN], and the
    fixed Z coordinate [GRID_Z_IN], the constant 33.577: in the exact
    reading and in binary64. *)
Theorem grid_to_model_in_swaps_axes (gx gy : Z) :
  (∃ mx my : R,
     Capture._interp_linear gy Capture.X_FROM_GRID_Y_IN = Ok mx ∧
     Capture._interp_linear gx Capture.Y_FROM_GRID_X_IN = Ok my ∧
     Capture.grid_to_model_in gx gy = Ok (mx, my, Capture.GRID_Z_IN) ∧
     Capture.GRID_Z_IN = 33.577) ∧
  (∃ mx my : float,
     Capture._interp_linear gy Capture.X_FROM_GRID_Y_IN = Ok mx ∧
     Capture._interp_linear gx Capture.Y_FROM_GRID_X_IN = Ok my ∧
     Capture.grid_to_model_in gx gy = Ok (mx, my, Capture.GRID_Z_IN) ∧
     Capture.GRID_Z_IN = lit 33.577).
Proof.
  split.
  - destruct (real_tables_return gy) as [[mx Hmx] _].
    destruct (real_tables_return gx) as [_ [my Hmy]].
    exists mx, my. unfold Capture.grid_to_model_in. rewrite Hmx, Hmy.
    split_and!; reflexivity.
  - destruct (float64_tables_return gy) as [[mx Hmx] _].
    destruct (float64_tables_return gx) as [_ [my Hmy]].
    exists mx, my. unfold Capture.grid_to_model_in. rewrite Hmx, Hmy.
    split_and!; reflexivity.
Qed.
End Grid.

(** ** Normalisation and the poses of the two eyes *)

Section Poses.
Local Open Scope R_scope.



(** C7.  For every cell center [(cx, cy, cz)] and base forward direction
    [(fx, fy)], with [right2 = (fy, -fx)] and [half_sep] the half
    separation in centimeters: the left eye is at
    [center.xy - right2 * half_sep], the right eye at
    [center.xy + right2 * half_sep], both at height [cz], in every
    arithmetic.  The half separation is [EYE_SEPARATION_IN / 2] inches,
    0.635 cm, and in exact arithmetic the midpoint of the two eyes is the
    center. *)
Theorem eye_positions_symmetric :
  (∀ (F : Type) (PF : PyFloat F) (PM : PyMath F) (cx cy cz half fx fy : F),
     let half_sep := Capture.inches_to_cm half in
     let right2 := (fy, - fx)%py in
     let '(left_eye_pt, _, right_eye_pt, _) :=
       Capture.eye_poses cx cy cz half (fx, fy) in
     left_eye_pt = (cx - right2.1 * half_sep, cy - right2.2 * half_sep, cz)%py ∧
     right_eye_pt = (cx + right2.1 * half_sep, cy + right2.2 * half_sep, cz)%py) ∧
  (∃ half : R, Capture.HALF_BASE_IN = Ok half ∧
     half = Capture.EYE_SEPARATION_IN / 2 ∧
     Capture.inches_to_cm half = 0.635 ∧
     ∀ cx cy cz fx fy : R,
       let '(left_eye_pt, _, right_eye_pt, _) :=
         Capture.eye_poses cx cy cz half (fx, fy) in
       (left_eye_pt.1.1 + right_eye_pt.1.1) / 2 = cx ∧
       (left_eye_pt.1.2 + right_eye_pt.1.2) / 2 = cy ∧
       left_eye_pt.2 = cz ∧ right_eye_pt.2 = cz) ∧
  (∃ half : float, Capture.HALF_BASE_IN = Ok half ∧
     half = lit 0.25 ∧ Capture.inches_to_cm half = lit 0.635).
Proof.
  split_and!.
  - intros F PF PM cx cy cz half fx fy. by split.
  - exists 0.25. split; [apply real_half_base|]. split.
    { unfold Capture.EYE_SEPARATION_IN. rewrite !real_lit. lra. }
    split.
    { rewrite real_inches_to_cm. lra. }
    intros cx cy cz fx fy. unfold Capture.eye_poses. cbn [fst snd].
    rewrite real_inches_to_cm.
    unfold fsub, fadd, fmul, fneg, real_PyFloat.
    split_and!; try reflexivity; lra.
  - exists (lit 0.25). split; [apply float64_half_base|].
    split; [reflexivity|]. vm_compute. reflexivity.
Qed.

(** C8.  For every base forward direction [(fx, fy)], the left eye's
    horizontal forward vector is [rot2d] of the base by [+YAW_OFFSET_DEG]
    and the right eye's by [-YAW_OFFSET_DEG], where [rot2d] is the rotation
    [(x cos a - y sin a, x sin a + y cos a)] by the angle in radians, in
    every arithmetic; [run] passes them to the host shortened by the cosine
    of the pitch and raised by its sine.  In exact arithmetic, with
    [theta = 50 pi / 180]: a base at polar angle [phi] gives the left eye
    the angle [phi + theta] and the right eye the angle [phi - theta], so
    the two yaw angles are symmetric about the base and differ by
    [2 theta]. *)
Theorem eye_yaw_symmetric :
  (∀ (F : Type) (PF : PyFloat F) (PM : PyMath F) (cx cy cz half fx fy : F),
     let left_fwd2 := Capture.rot2d fx fy Capture.YAW_OFFSET_DEG in
     let right_fwd2 := Capture.rot2d fx fy (- Capture.YAW_OFFSET_DEG)%py in
     let left_rad := math_radians Capture.YAW_OFFSET_DEG in
     let right_rad := math_radians (- Capture.YAW_OFFSET_DEG)%py in
     let cp := math_cos (math_radians Capture.PITCH_UP_DEG) in
     let sp := math_sin (math_radians Capture.PITCH_UP_DEG) in
     let '(_, left_fwd3, _, right_fwd3) :=
       Capture.eye_poses cx cy cz half (fx, fy) in
     left_fwd2 =
       (fx * math_cos left_rad - fy * math_sin left_rad,
        fx * math_sin left_rad + fy * math_cos left_rad)%py ∧
     right_fwd2 =
       (fx * math_cos right_rad - fy * math_sin right_rad,
        fx * math_sin right_rad + fy * math_cos right_rad)%py ∧
     left_fwd3 = (left_fwd2.1 * cp, left_fwd2.2 * cp, sp)%py ∧
     right_fwd3 = (right_fwd2.1 * cp, right_fwd2.2 * cp, sp)%py) ∧
  (∀ r phi : R,
     let theta := 50 * (PI / 180) in
     math_radians Capture.YAW_OFFSET_DEG = theta ∧
     math_radians (- Capture.YAW_OFFSET_DEG)%py = - theta ∧
     Capture.rot2d (r * cos phi) (r * sin phi) Capture.YAW_OFFSET_DEG =
       (r * cos (phi + theta), r * sin (phi + theta)) ∧
     Capture.rot2d (r * cos phi) (r * sin phi) (- Capture.YAW_OFFSET_DEG)%py =
       (r * cos (phi - theta), r * sin (phi - theta)) ∧
     (phi + theta) - (phi - theta) = 2 * theta).
Proof.
  split.
  - intros F PF PM cx cy cz half fx fy. by split_and!.
  - intros r phi theta. unfold Capture.rot2d.
    rewrite real_yaw, real_yaw_neg. fold theta.
    unfold fsub, fadd, fmul, fneg, real_PyFloat, math_cos, math_sin, real_PyMath.
    split_and!; try reflexivity.
    + f_equal; rewrite ?cos_plus, ?sin_plus; lra.
    + f_equal; rewrite ?cos_neg, ?sin_neg, ?cos_minus, ?sin_minus; lra.
    + lra.
Qed.
End Poses.

(** ** The capture loop *)

Section Driver.
Context {F : Type} {PF : PyFloat F} {PM : PyMath F} {PB : PyBuiltins}.
Implicit Types (app : host F) (d : string * (F * F)).

Lemma run_direction_app out_dir prefix gx gy cx cy cz half app d :
  Capture.run_direction out_dir prefix gx gy cx cy cz half app d =
    app ++ Capture.run_direction out_dir prefix gx gy cx cy cz half [] d.
Proof.
  unfold Capture.run_direction, Capture.set_camera_and_capture.
  destruct d as [dir_name base_fwd2].
  destruct (Capture.eye_poses _ _ _ _ _) as [[[? ?] ?] ?].
  by rewrite <-(assoc_L (++)).
Qed.

Lemma run_direction_paths out_dir prefix gx gy cx cy cz half d :
  call_path <$> Capture.run_direction out_dir prefix gx gy cx cy cz half [] d =
    path_join out_dir <$> cell_file_names prefix gx gy [d.1].
Proof.
  unfold Capture.run_direction, Capture.set_camera_and_capture.
  destruct d as [dir_name base_fwd2].
  destruct (Capture.eye_poses _ _ _ _ _) as [[[? ?] ?] ?].
  reflexivity.
Qed.

Lemma run_directions_app out_dir prefix gx gy cx cy cz half app
    (dirs : list (string * (F * F))) :
  foldl (Capture.run_direction out_dir prefix gx gy cx cy cz half) app dirs =
    app ++ foldl (Capture.run_direction out_dir prefix gx gy cx cy cz half) [] dirs.
Proof.
  revert app. induction dirs as [|d dirs IH]; intros app; simpl.
  - by rewrite (right_id_L [] (++)).
  - rewrite IH, (IH (Capture.run_direction _ _ _ _ _ _ _ _ [] d)).
    rewrite (run_direction_app _ _ _ _ _ _ _ _ app d).
    by rewrite (assoc_L (++)).
Qed.

Lemma run_directions_paths out_dir prefix gx gy cx cy cz half
    (dirs : list (string * (F * F))) :
  call_path <$>
    foldl (Capture.run_direction out_dir prefix gx gy cx cy cz half) [] dirs =
  path_join out_dir <$> cell_file_names prefix gx gy dirs.*1.
Proof.
  induction dirs as [|d dirs IH]; [done|]. simpl foldl.
  rewrite run_directions_app, fmap_app, IH, run_direction_paths.
  by rewrite <-fmap_app.
Qed.

Lemma cell_file_names_length prefix gx gy (names : list string) :
  length (cell_file_names prefix gx gy names) = (2 * length names)%nat.
Proof.
  induction names as [|d names IH]; [done|].
  change (cell_file_names prefix gx gy (d :: names)) with
    ([capture_file_name prefix gx gy d "left";
      capture_file_name prefix gx gy d "right"]
     ++ cell_file_names prefix gx gy names).
  rewrite length_app, IH. simpl. lia.
Qed.

(** The loop over the positions, when no cell raises: the captures of the
    cells, one block after the other. *)
Lemma run_cells_blocks out_dir prefix dc dd half
    (block : Z * Z → list (capture_call F)) positions app :
  (∀ app cell,
     Capture.run_cell out_dir prefix dc dd half app cell = Ok (app ++ block cell)) →
  Capture.run_cells out_dir prefix dc dd half app positions =
    (None, app ++ concat (block <$> positions)).
Proof.
  intros Hcell. revert app.
  induction positions as [|cell rest IH]; intros app; simpl.
  - by rewrite (right_id_L [] (++)).
  - by rewrite Hcell, IH, (assoc_L (++)).
Qed.

Lemma is_corner_true (gx gy : Z) :
  Capture.is_corner gx gy = true ↔ (gx = 0 ∨ gx = 10)%Z ∧ (gy = 0 ∨ gy = 10)%Z.
Proof.
  unfold Capture.is_corner.
  by rewrite andb_true_iff, !orb_true_iff, !Z.eqb_eq.
Qed.

Context {GR : GeometryReturns F}.

Lemma model_xy_cm_returns (gx gy : Z) :
  ∃ p, Capture.model_xy_cm (F:=F) gx gy = Ok p.
Proof.
  destruct (grid_to_model_in_returns gx gy) as (mx & my & Hg).
  unfold Capture.model_xy_cm. rewrite Hg. by eexists.
Qed.

Ltac norm2d_step :=
  match goal with
  | |- context [Capture.norm2d ?a ?b] =>
      let u := fresh "u" in
      destruct (norm2d_returns a b) as [u ->]; cbn [mbind res_bind]
  end.

Lemma direction_sets_return :
  ∃ north2 east2 south2 west2 ne2 se2 sw2 nw2 : F * F,
    Capture.direction_sets =
      Ok ([ ("north", north2); ("east", east2);
            ("south", south2); ("west", west2) ],
          [ ("ne", ne2); ("se", se2); ("sw", sw2); ("nw", nw2) ]) ∧
    south2 = (- north2.1, - north2.2)%py ∧ west2 = (- east2.1, - east2.2)%py.
Proof.
  unfold Capture.direction_sets.
  destruct (model_xy_cm_returns 5 5) as [p_55 ->].
  destruct (model_xy_cm_returns 5 0) as [p_50 ->].
  destruct (model_xy_cm_returns 10 5) as [p_105 ->].
  cbn [mbind res_bind fst snd].
  do 6 norm2d_step.
  cbn [mret res_ret]. by repeat eexists.
Qed.

Lemma run_cell_returns out_dir prefix (dc dd : list (string * (F * F))) half gx gy :
  ∃ cx cy, ∀ app,
    Capture.run_cell out_dir prefix dc dd half app (gx, gy) =
      Ok (foldl (Capture.run_direction out_dir prefix gx gy cx cy
                   (Capture.inches_to_cm Capture.EYE_Z_IN) half)
            app (Capture.cell_dirs dc dd gx gy)).
Proof.
  destruct (grid_to_model_in_returns gx gy) as (mx & my & Hg).
  exists (Capture.inches_to_cm mx), (Capture.inches_to_cm my). intros app.
  unfold Capture.run_cell. by rewrite Hg.
Qed.

Lemma run_no_cells (script_dir : string) (file_lines : list string)
    (prefix : string) (app : host F) :
  Capture.parse_positions_txt file_lines = Ok (prefix, []) →
  Capture.run script_dir file_lines app =
    (Completed (path_join (path_join script_dir "photos") prefix), app).
Proof.
  intros Hparse.
  destruct half_base_returns as [half Hhalf].
  destruct direction_sets_return
    as (n & e & s & w & ne & se & sw & nw & Hsets & _).
  unfold Capture.run. by rewrite Hhalf, Hparse, Hsets.
Qed.

(** C6.  For every capture job (the prefix and the cells parsed from
    positions.txt), in every arithmetic in which the geometric core
    returns, [run] completes and asks the host for one block of captures
    per cell, in the order of the cells; every block, corner cell or not,
    has exactly 8 captures: for each of the cell's 4 directions in turn,
    the left eye and then the right eye, under the file names of the
    convention.  The run makes [8 * number of cells] captures in all. *)
Theorem run_eight_captures_per_cell (script_dir : string)
    (file_lines : list string) (prefix : string) (positions : list (Z * Z))
    (app : host F) :
  Capture.parse_positions_txt file_lines = Ok (prefix, positions) →
  let out_dir := path_join (path_join script_dir "photos") prefix in
  ∃ blocks : list (list (capture_call F)),
    Capture.run script_dir file_lines app =
      (Completed out_dir, app ++ concat blocks) ∧
    Forall2 (λ '(gx, gy) block,
      length block = 8%nat ∧
      call_path <$> block =
        path_join out_dir <$>
          cell_file_names prefix gx gy
            (if Capture.is_corner gx gy then diagonal_names else cardinal_names))
      positions blocks ∧
    length (concat blocks) = (8 * length positions)%nat.
Proof.
  intros Hparse out_dir.
  destruct half_base_returns as [half Hhalf].
  destruct direction_sets_return
    as (n & e & s & w & ne & se & sw & nw & Hsets & _).
  set (dc := [("north", n); ("east", e); ("south", s); ("west", w)]) in *.
  set (dd := [("ne", ne); ("se", se); ("sw", sw); ("nw", nw)]) in *.
  set (block := λ cell : Z * Z,
    match Capture.run_cell out_dir prefix dc dd half [] cell with
    | Ok calls => calls
    | Raise _ => []
    end).
  assert (∀ app cell,
    Capture.run_cell out_dir prefix dc dd half app cell = Ok (app ++ block cell))
    as Hcell.
  { intros app' [gx gy]. unfold block.
    destruct (run_cell_returns out_dir prefix dc dd half gx gy) as (cx & cy & Hrun).
    rewrite !Hrun. f_equal. apply run_directions_app. }
  assert (∀ gx gy,
    call_path <$> block (gx, gy) =
      path_join out_dir <$>
        cell_file_names prefix gx gy
          (if Capture.is_corner gx gy then diagonal_names else cardinal_names))
    as Hpaths.
  { intros gx gy. unfold block.
    destruct (run_cell_returns out_dir prefix dc dd half gx gy) as (cx & cy & ->).
    rewrite run_directions_paths. unfold Capture.cell_dirs.
    by destruct (Capture.is_corner gx gy). }
  assert (∀ gx gy, length (block (gx, gy)) = 8%nat) as Hlen.
  { intros gx gy. rewrite <-(length_fmap call_path), Hpaths, length_fmap.
    rewrite cell_file_names_length. by destruct (Capture.is_corner gx gy). }
  exists (block <$> positions). split_and!.
  - unfold Capture.run. rewrite Hhalf, Hparse, Hsets.
    cbn [mbind res_bind mret res_ret].
    fold out_dir dc dd. by rewrite (run_cells_blocks _ _ _ _ _ block).
  - apply Forall2_fmap_r, Forall_Forall2_diag, Forall_forall.
    intros [gx gy] _. by split.
  - clear -Hlen. induction positions as [|[gx gy] rest IH]; [done|].
    rewrite fmap_cons. simpl concat. rewrite length_app, IH, Hlen. simpl. lia.
Qed.
End Driver.

(** The capture count in the exact reading, on a job of two cells, a
    corner and a non-corner, read from ASCII text. *)
Lemma run_eight_captures_per_cell_witness :
  let PB := ascii_PyBuiltins in
  ∃ blocks : list (list (capture_call R)),
    Capture.run "/scripts" ["run1"; "0,0"; "5,0"] [] =
      (Completed "/scripts/photos/run1", [] ++ concat blocks) ∧
    Forall2 (λ '(gx, gy) block,
      length block = 8%nat ∧
      call_path <$> block =
        path_join "/scripts/photos/run1" <$>
          cell_file_names "run1" gx gy
            (if Capture.is_corner gx gy then diagonal_names else cardinal_names))
      [(0, 0); (5, 0)]%Z blocks ∧
    length (concat blocks) = (8 * 2)%nat.
Proof.
  intros PB.
  apply (run_eight_captures_per_cell (F:=R) (PB:=PB) "/scripts"
           ["run1"; "0,0"; "5,0"] "run1" [(0, 0); (5, 0)]%Z []).
  vm_compute. reflexivity.
Defined.

Section Corners.

(** C5.  For all integers [gx] and [gy], [is_corner gx gy] holds if and
    only if [gx] is 0 or 10 and [gy] is 0 or 10; cell (0,0) is a corner and
    cell (5,0) is not; and, in every arithmetic in which the geometric core
    returns, [run] gives a cell the diagonal direction set (ne, se, sw, nw)
    exactly when it is a corner, and the cardinal set (north, east, south,
    west) otherwise. *)
Theorem corner_cells_use_diagonals (gx gy : Z) :
  (Capture.is_corner gx gy = true ↔
     (gx = 0 ∨ gx = 10)%Z ∧ (gy = 0 ∨ gy = 10)%Z) ∧
  Capture.is_corner 0 0 = true ∧
  Capture.is_corner 5 0 = false ∧
  ∀ (F : Type) (PF : PyFloat F) (PM : PyMath F) (PB : PyBuiltins),
    GeometryReturns F →
    ∃ dirs_cardinal dirs_diagonal : list (string * (F * F)),
      Capture.direction_sets = Ok (dirs_cardinal, dirs_diagonal) ∧
      dirs_cardinal.*1 = cardinal_names ∧
      dirs_diagonal.*1 = diagonal_names ∧
      (Capture.cell_dirs dirs_cardinal dirs_diagonal gx gy = dirs_diagonal ↔
         (gx = 0 ∨ gx = 10)%Z ∧ (gy = 0 ∨ gy = 10)%Z) ∧
      (Capture.cell_dirs dirs_cardinal dirs_diagonal gx gy = dirs_cardinal ↔
         ¬ ((gx = 0 ∨ gx = 10)%Z ∧ (gy = 0 ∨ gy = 10)%Z)) ∧
      ∀ out_dir prefix half app, ∃ cx cy cz,
        Capture.run_cell out_dir prefix dirs_cardinal dirs_diagonal half app
          (gx, gy) =
          Ok (foldl (Capture.run_direction out_dir prefix gx gy cx cy cz half) app
                (if Capture.is_corner gx gy then dirs_diagonal else dirs_cardinal)).
Proof.
  split; [apply is_corner_true|]. split; [done|]. split; [done|].
  intros F PF PM PB GR.
  destruct direction_sets_return
    as (n & e & s & w & ne & se & sw & nw & Hsets & _).
  eexists _, _. split; [exact Hsets|].
  split; [done|]. split; [done|].
  unfold Capture.cell_dirs. rewrite <-is_corner_true. split_and!.
  - destruct (Capture.is_corner gx gy); [done|].
    split; [|done]. intros Heq. by apply (f_equal (fmap fst)) in Heq.
  - destruct (Capture.is_corner gx gy); [|done].
    split; [|done]. intros Heq. by apply (f_equal (fmap fst)) in Heq.
  - intros out_dir prefix half app.
    destruct (run_cell_returns out_dir prefix
      [("north", n); ("east", e); ("south", s); ("west", w)]
      [("ne", ne); ("se", se); ("sw", sw); ("nw", nw)] half gx gy)
      as (cx & cy & Hcell).
    exists cx, cy, (Capture.inches_to_cm Capture.EYE_Z_IN). apply Hcell.
Qed.
End Corners.

(** ** Parsing positions.txt *)

Section Parse.
Context {PB : PyBuiltins}.
Implicit Types (st : option string * list (Z * Z)) (ln prefix : string).

Lemma ignored_strip ln : ignored (str_strip ln) ↔ blank_or_comment ln.
Proof. done. Qed.

Lemma parse_line_ignored st ln : ignored ln → Capture.parse_line st ln = st.
Proof.
  intros Hign. unfold Capture.parse_line. destruct st as [prefix positions].
  destruct Hign as [->| ->]; [done|].
  by rewrite orb_true_r.
Qed.

Lemma parse_line_prefix positions ln :
  ¬ ignored ln → Capture.parse_line (None, positions) ln = (Some ln, positions).
Proof.
  intros Hign. unfold Capture.parse_line.
  destruct (bool_decide (ln = EmptyString) || startswith "#" ln) eqn:Htest; [|done].
  destruct Hign. apply orb_true_iff in Htest as [Hempty|Hcomment].
  - left. by apply bool_decide_eq_true in Hempty.
  - by right.
Qed.

Lemma parse_line_malformed prefix positions ln :
  length (str_split "," ln) ≠ 2%nat ∨
  (∃ part, part ∈ str_split "," ln ∧ raises (int_of_str (str_strip part))) →
  Capture.parse_line (Some prefix, positions) ln = (Some prefix, positions).
Proof.
  intros Hbad. unfold Capture.parse_line.
  destruct (bool_decide (ln = EmptyString) || startswith "#" ln); [done|].
  destruct (str_split "," ln) as [|part0 [|part1 [|part2 parts]]]; try done.
  destruct Hbad as [Hlen|(part & Hpart & [e He])]; [done|].
  apply elem_of_cons in Hpart as [->|Hpart].
  { by rewrite He. }
  apply list_elem_of_singleton in Hpart as ->.
  rewrite He. by destruct (int_of_str (str_strip part0)).
Qed.

Lemma parse_line_keeps_prefix prefix positions ln :
  ∃ positions',
    Capture.parse_line (Some prefix, positions) ln = (Some prefix, positions').
Proof.
  unfold Capture.parse_line.
  destruct (bool_decide (ln = EmptyString) || startswith "#" ln); [by eexists|].
  destruct (str_split "," ln) as [|part0 [|part1 [|part2 parts]]];
    try by eexists.
  destruct (_ ≫= _); by eexists.
Qed.

Lemma parse_lines_keep_prefix prefix positions (lines : list string) :
  ∃ positions',
    foldl Capture.parse_line (Some prefix, positions) lines =
      (Some prefix, positions').
Proof.
  revert positions. induction lines as [|ln lines IH]; intros positions; cbn [foldl].
  - by eexists.
  - destruct (parse_line_keeps_prefix prefix positions ln) as [positions' ->].
    apply IH.
Qed.

Lemma parse_lines_ignored st (lines : list string) :
  Forall ignored lines → foldl Capture.parse_line st lines = st.
Proof.
  induction 1 as [|ln lines Hln _ IH]; cbn [foldl]; [done|].
  by rewrite parse_line_ignored.
Qed.

Lemma parse_lines_find_prefix positions (lines : list string) :
  ¬ Forall ignored lines →
  ∃ prefix positions',
    foldl Capture.parse_line (None, positions) lines = (Some prefix, positions').
Proof.
  induction lines as [|ln lines IH]; intros Hnot; cbn [foldl].
  { destruct Hnot. constructor. }
  assert (Decision (ignored ln)) as [Hign|Hign] by (unfold ignored; apply _).
  - rewrite parse_line_ignored by done. apply IH.
    intros Hall. apply Hnot. by constructor.
  - rewrite parse_line_prefix by done.
    destruct (parse_lines_keep_prefix ln positions lines) as [positions' ->].
    by eexists _, _.
Qed.

Lemma Forall_ignored_strip (lines : list string) :
  Forall ignored (str_strip <$> lines) ↔ Forall blank_or_comment lines.
Proof. by rewrite Forall_fmap. Qed.

Lemma parse_positions_txt_raises (lines : list string) :
  Forall blank_or_comment lines →
  Capture.parse_positions_txt lines = Raise missing_prefix_error.
Proof.
  intros Hall. unfold Capture.parse_positions_txt.
  by rewrite parse_lines_ignored by by apply Forall_ignored_strip.
Qed.

Lemma parse_positions_txt_ok (lines : list string) :
  ¬ Forall blank_or_comment lines →
  ∃ prefix positions, Capture.parse_positions_txt lines = Ok (prefix, positions).
Proof.
  intros Hnot. unfold Capture.parse_positions_txt.
  destruct (parse_lines_find_prefix [] (str_strip <$> lines))
    as (prefix & positions & ->).
  { by rewrite Forall_ignored_strip. }
  by eexists _, _.
Qed.

Lemma Forall_blank_or_comment_dec (lines : list string) :
  Decision (Forall blank_or_comment lines).
Proof. apply Forall_dec. intros ln. unfold blank_or_comment. apply _. Qed.

Lemma parse_positions_txt_skips (pre post : list string) ln :
  ¬ Forall blank_or_comment pre →
  blank_or_comment ln ∨ malformed_pair ln →
  Capture.parse_positions_txt (pre ++ ln :: post) =
    Capture.parse_positions_txt (pre ++ post).
Proof.
  intros Hpre Hln. unfold Capture.parse_positions_txt.
  rewrite !fmap_app, fmap_cons, !foldl_app. cbn [foldl].
  destruct (parse_lines_find_prefix [] (str_strip <$> pre))
    as (prefix & positions & ->).
  { by rewrite Forall_ignored_strip. }
  destruct Hln as [Hign|Hbad].
  - by rewrite parse_line_ignored.
  - by rewrite parse_line_malformed.
Qed.

Lemma parse_positions_txt_no_cells prefix_line (rest : list string) :
  ¬ blank_or_comment prefix_line →
  Forall (λ ln, blank_or_comment ln ∨ malformed_pair ln) rest →
  Capture.parse_positions_txt (prefix_line :: rest) =
    Ok (str_strip prefix_line, []).
Proof.
  intros Hprefix Hrest. unfold Capture.parse_positions_txt.
  rewrite fmap_cons. cbn [foldl]. rewrite parse_line_prefix by done.
  induction Hrest as [|ln rest Hln _ IH]; [done|].
  rewrite fmap_cons. cbn [foldl].
  destruct Hln as [Hign|Hbad].
  - by rewrite parse_line_ignored.
  - by rewrite parse_line_malformed.
Qed.
End Parse.


Section ParseContract.
Context {PB : PyBuiltins}.

(** C9.  [parse_positions_txt] raises if and only if the file has no
    prefix line, that is, every line is blank or a comment, and the
    exception is then the missing-prefix error; after the prefix line, a
    line that is blank, a comment, does not split into exactly two parts at
    the commas, or has a part that is not an integer leaves the result
    unchanged; a file with only a prefix line gives that prefix with no
    cells, and [run] on it completes without a capture. *)
Theorem parse_positions_txt_contract :
  (∀ lines : list string,
     raises (Capture.parse_positions_txt lines) ↔ Forall blank_or_comment lines) ∧
  (∀ lines : list string,
     Forall blank_or_comment lines →
     Capture.parse_positions_txt lines = Raise missing_prefix_error) ∧
  (∀ (pre post : list string) (ln : string),
     ¬ Forall blank_or_comment pre →
     blank_or_comment ln ∨ malformed_pair ln →
     Capture.parse_positions_txt (pre ++ ln :: post) =
       Capture.parse_positions_txt (pre ++ post)) ∧
  (∀ prefix_line : string,
     ¬ blank_or_comment prefix_line →
     Capture.parse_positions_txt [prefix_line] = Ok (str_strip prefix_line, []) ∧
     ∀ (F : Type) (PF : PyFloat F) (PM : PyMath F),
       GeometryReturns F →
       ∀ (script_dir : string) (app : host F),
         Capture.run script_dir [prefix_line] app =
           (Completed (path_join (path_join script_dir "photos")
                         (str_strip prefix_line)), app)).
Proof.
  split_and!.
  - intros lines. split.
    + intros [e He].
      destruct (Forall_blank_or_comment_dec lines) as [Hall|Hnot]; [done|].
      destruct (parse_positions_txt_ok lines Hnot) as (prefix & positions & Hok).
      congruence.
    + intros Hall. eexists. by apply parse_positions_txt_raises.
  - apply parse_positions_txt_raises.
  - apply parse_positions_txt_skips.
  - intros prefix_line Hprefix.
    pose proof (parse_positions_txt_no_cells prefix_line [] Hprefix (Forall_nil_2 _))
      as Hparse.
    split; [done|]. intros F PF PM GR script_dir app. by apply run_no_cells.
Qed.
End ParseContract.

(** ** The two scripts *)

Section Variants.
Context {F : Type} {PF : PyFloat F} {PM : PyMath F}.

(** C10.  In every reading of float arithmetic, the functions
    [_interp_linear], [grid_to_model_in], [inches_to_cm], [rot2d], [norm2d]
    and [is_corner] of capture.py return the same results as the functions
    of the same names of CaptureView/CaptureView.py on all inputs, and the
    two scripts have the same knot tables and the same geometry
    constants. *)
Theorem capture_variants_agree :
  (∀ (index : Z) (knot_map : gmap Z F),
     Capture._interp_linear index knot_map =
       CaptureView._interp_linear index knot_map) ∧
  (∀ gx gy : Z,
     Capture.grid_to_model_in (F:=F) gx gy = CaptureView.grid_to_model_in gx gy) ∧
  (∀ x_in : F, Capture.inches_to_cm x_in = CaptureView.inches_to_cm x_in) ∧
  (∀ vx vy deg : F, Capture.rot2d vx vy deg = CaptureView.rot2d vx vy deg) ∧
  (∀ vx vy : F, Capture.norm2d vx vy = CaptureView.norm2d vx vy) ∧
  (∀ gx gy : Z, Capture.is_corner gx gy = CaptureView.is_corner gx gy) ∧
  Capture.X_FROM_GRID_Y_IN (F:=F) = CaptureView.X_FROM_GRID_Y_IN ∧
  Capture.Y_FROM_GRID_X_IN (F:=F) = CaptureView.Y_FROM_GRID_X_IN ∧
  Capture.CM_PER_IN (F:=F) = CaptureView.CM_PER_IN ∧
  Capture.GRID_Z_IN (F:=F) = CaptureView.GRID_Z_IN ∧
  Capture.EYE_RAISE_IN (F:=F) = CaptureView.EYE_RAISE_IN ∧
  Capture.EYE_Z_IN (F:=F) = CaptureView.EYE_Z_IN ∧
  Capture.EYE_SEPARATION_IN (F:=F) = CaptureView.EYE_SEPARATION_IN ∧
  Capture.HALF_BASE_IN (F:=F) = CaptureView.HALF_BASE_IN ∧
  Capture.YAW_OFFSET_DEG (F:=F) = CaptureView.YAW_OFFSET_DEG ∧
  Capture.PITCH_UP_DEG (F:=F) = CaptureView.PITCH_UP_DEG ∧
  Capture.VFOV_DEG (F:=F) = CaptureView.VFOV_DEG ∧
  Capture.IMG_W = CaptureView.IMG_W ∧
  Capture.IMG_H = CaptureView.IMG_H.
Proof. repeat split. Qed.
End Variants.


(** ** The interpolation scenario *)

Section Scenario.
Local Open Scope R_scope.

(** C2 as stated fails.  The expression
    [8.039 + (3-1)/(5-1) * (55.519-16.336)] is 27.6305, but
    [_interp_linear 3] on the scenario knots is not within 1 of it: index 3
    lies between the knots 1 and 5, so the interpolation starts from the
    value 16.336 of knot 1, not from the value 8.039 of knot 0. *)
Lemma scenario_value_is_not_27_6305 :
  (8.039 + (3 - 1) / (5 - 1) * (55.519 - 16.336) = 27.6305) ∧
  ¬ ∃ v : R, Capture._interp_linear 3 scenario_knots = Ok v ∧
             Rabs (v - 27.6305) <= 1.
Proof.
  split; [lra|]. intros (v & Hv & Hclose).
  rewrite scenario_value_real in Hv. injection Hv as <-.
  replace (35.9275 - 27.6305) with 8.297 in Hclose by lra.
  rewrite Rabs_pos_eq in Hclose; lra.
Qed.

(** C2, amended.  On the knots [{0: 8.039, 1: 16.336, 5: 55.519}],
    [_interp_linear 3] is [16.336 + (3-1)/(5-1) * (55.519-16.336)], which
    is 35.9275: exactly in the exact reading, and within [1e-12] in
    binary64. *)
Theorem scenario_value :
  Capture._interp_linear 3 (scenario_knots (F:=R)) =
    Ok (16.336 + (3 - 1) / (5 - 1) * (55.519 - 16.336)) ∧
  16.336 + (3 - 1) / (5 - 1) * (55.519 - 16.336) = 35.9275 ∧
  ∃ f : float,
    Capture._interp_linear 3 (scenario_knots (F:=float)) = Ok f ∧
    (PrimFloat.abs (f - lit 35.9275) <=? lit 1e-12)%py = true.
Proof.
  split_and!.
  - rewrite scenario_value_real. f_equal. lra.
  - lra.
  - eexists. split; [apply scenario_value_float64|]. vm_compute. reflexivity.
Qed.
End Scenario.


(** ** Running the embedding *)

Section Examples.

Example parse_example :
  @Capture.parse_positions_txt ascii_PyBuiltins
    ["# grid run"; ""; " run1 "; "1,2"; "a,b"; "3,4,5"; " 10 , -3 "; "#x"; "5"] =
  Ok ("run1", [(1, 2); (10, -3)]%Z).
Proof. vm_compute. reflexivity. Qed.

Example parse_no_prefix_example :
  @Capture.parse_positions_txt ascii_PyBuiltins ["# only a comment"; "  "] =
  Raise missing_prefix_error.
Proof. vm_compute. reflexivity. Qed.

(** Binary64: the corner cell (0, 10) lies on knots, and the swap shows. *)
Example grid_to_model_in_float64_knots :
  Capture.grid_to_model_in (F:=float) 0 10 =
    Ok (lit 102.999, lit 6.02, lit 33.577).
Proof. vm_compute. reflexivity. Qed.

(** Binary64: between knots, within [1e-12] of the exact values 75.1105
    and 33.9085. *)
Example grid_to_model_in_float64_between :
  ∃ mx my mz : float,
    Capture.grid_to_model_in 3 7 = Ok (mx, my, mz) ∧
    (PrimFloat.abs (mx - lit 75.1105) <=? lit 1e-12)%py = true ∧
    (PrimFloat.abs (my - lit 33.9085) <=? lit 1e-12)%py = true.
Proof. eexists _, _, _. split; [vm_compute; reflexivity|]. split; vm_compute; reflexivity. Qed.

Example float_of_int_overflow :
  of_int (F:=float) (2 ^ 1024) = Raise OverflowError ∧
  of_int (F:=float) (2 ^ 53 + 1) = of_int (2 ^ 53).
Proof. split; vm_compute; reflexivity. Qed.
End Examples.

(** * Further properties of the code *)

(** ** More on the interpolation *)

Section InterpMore.
Local Open Scope R_scope.
Implicit Types (m : gmap Z R) (index k : Z) (v : R).

Lemma interp_linear_empty {F} {PF : PyFloat F} (index : Z) :
  Capture._interp_linear index (∅ : gmap Z F) = Raise IndexError.
Proof. reflexivity. Qed.

(** What the exact reading computes strictly between two neighbouring
    keys: the value of the formula, or [OverflowError] when the keys are
    too far apart for [float]. *)
Lemma real_bracket_in_range index m k0 k1 v0 v1 v :
  m !! k0 = Some v0 → m !! k1 = Some v1 → (k0 < index < k1)%Z →
  (∀ k, (k0 < k < k1)%Z → m !! k = None) →
  Capture._interp_linear index m = Ok v →
  (k1 - k0 < float_overflow_threshold)%Z.
Proof.
  intros Hk0 Hk1 Hin Hgap Hv.
  destruct (decide (k1 - k0 < float_overflow_threshold)%Z) as [|Hfar]; [done|].
  rewrite (real_interp_linear_overflow index m k0 k1 v0 v1) in Hv
    by (done || lia).
  done.
Qed.

Lemma interpolate_spec_complete index m v :
  Capture._interp_linear index m = Ok v → interpolate_spec index m v.
Proof.
  intros Hv. destruct (decide (m = ∅)) as [->|Hne].
  { by rewrite interp_linear_empty in Hv. }
  destruct (interpolate_spec_total index m Hne) as [v' Hv'].
  assert (Capture._interp_linear index m = Ok v') as Hsound.
  { destruct Hv' as [v' Hk|k0 k1 v0 v1 Hk0 Hk1 Hin Hgap|k0 v' Hk0 Hmin Hlt
                    |k0 v' Hk0 Hmax Hlt].
    - by apply interp_linear_exact.
    - apply real_interp_linear_between; [done..|].
      by apply (real_bracket_in_range index m k0 k1 v0 v1 v).
    - by eapply interp_linear_below.
    - by eapply interp_linear_above. }
  rewrite Hv in Hsound. by simplify_eq.
Qed.

(** X1.  The exceptions of [_interp_linear].  On the empty knot mapping it
    raises [IndexError], for every index and in every arithmetic.  In the
    exact reading, whose [float(n)] raises as binary64's does, it raises
    in two cases only: [IndexError] on the empty mapping, and
    [OverflowError] when the index lies strictly between two neighbouring
    keys [k0 < k1] that are [2^1024 - 2^970] or more apart.  In binary64
    the knots [{0: 1.0, 2^1024: 1.0}] raise [OverflowError] at index 1. *)
Theorem interp_linear_exceptions :
  (∀ (F : Type) (PF : PyFloat F) (index : Z),
     Capture._interp_linear index (∅ : gmap Z F) = Raise IndexError) ∧
  (∀ m index e,
     Capture._interp_linear index m = Raise e ↔
       (m = ∅ ∧ e = IndexError) ∨
       (e = OverflowError ∧
        ∃ k0 k1,
          is_Some (m !! k0) ∧ is_Some (m !! k1) ∧ (k0 < index < k1)%Z ∧
          (∀ k, (k0 < k < k1)%Z → m !! k = None) ∧
          (float_overflow_threshold ≤ k1 - k0)%Z)) ∧
  Capture._interp_linear 1 (distant_knots (F:=float)) = Raise OverflowError.
Proof.
  split_and!.
  - intros F PF index. apply interp_linear_empty.
  - intros m index e. split.
    + intros He. destruct (decide (m = ∅)) as [->|Hne].
      { left. rewrite interp_linear_empty in He. by simplify_eq. }
      right.
      destruct (interpolate_spec_total index m Hne) as [v Hv].
      destruct Hv as [v Hk|k0 k1 v0 v1 Hk0 Hk1 Hin Hgap|k0 v Hk0 Hmin Hlt
                     |k0 v Hk0 Hmax Hlt].
      * by rewrite (interp_linear_exact index m v) in He.
      * destruct (decide (k1 - k0 < float_overflow_threshold)%Z) as [Hnear|Hfar].
        { by rewrite (real_interp_linear_between index m k0 k1 v0 v1) in He. }
        rewrite (real_interp_linear_overflow index m k0 k1 v0 v1) in He
          by (done || lia).
        injection He as <-. split; [done|].
        exists k0, k1. split_and!; [by eexists|by eexists|lia|lia|done|lia].
      * by rewrite (interp_linear_below index m k0 v) in He.
      * by rewrite (interp_linear_above index m k0 v) in He.
    + intros [[-> ->]|[-> (k0 & k1 & [v0 Hk0] & [v1 Hk1] & Hin & Hgap & Hfar)]].
      * apply interp_linear_empty.
      * by apply (real_interp_linear_overflow index m k0 k1 v0 v1).
  - vm_compute. reflexivity.
Qed.

(** The interpolated value between two neighbouring knots, as a weighted
    mean of their values. *)
Lemma bracket_between (k0 k1 index : Z) (v0 v1 lo hi : R) :
  (k0 < index < k1)%Z → lo <= v0 <= hi → lo <= v1 <= hi →
  lo <= v0 + (IZR index - IZR k0) / (IZR k1 - IZR k0) * (v1 - v0) <= hi.
Proof.
  intros [H0 H1] Hv0 Hv1.
  apply IZR_lt in H0, H1.
  set (t := (IZR index - IZR k0) / (IZR k1 - IZR k0)).
  assert (0 < t < 1) as Ht.
  { unfold t. split.
    - apply Rdiv_lt_0_compat; lra.
    - apply Rmult_lt_reg_r with (IZR k1 - IZR k0); [lra|].
      unfold Rdiv. rewrite Rmult_assoc, Rinv_l by lra. lra. }
  replace (v0 + t * (v1 - v0)) with ((1 - t) * v0 + t * v1) by lra.
  split; nra.
Qed.

Lemma interpolate_spec_within m index v (lo hi : R) :
  (∀ k vk, m !! k = Some vk → lo <= vk <= hi) →
  interpolate_spec index m v → lo <= v <= hi.
Proof.
  intros Hrange Hv.
  destruct Hv as [v Hk|k0 k1 v0 v1 Hk0 Hk1 Hin _|k v Hk _ _|k v Hk _ _];
    eauto using bracket_between.
Qed.

(** X2.  In exact arithmetic the interpolation never leaves the range of
    the stored values: when every knot value lies in [[lo, hi]], so does
    the result, for every index. *)
Theorem interp_linear_within_values m index v (lo hi : R) :
  (∀ k vk, m !! k = Some vk → lo <= vk <= hi) →
  Capture._interp_linear index m = Ok v →
  lo <= v <= hi.
Proof.
  intros Hrange Hv. apply interpolate_spec_complete in Hv.
  revert Hv. by apply interpolate_spec_within.
Qed.

(** For knot values that do not decrease with the key, the value at an
    index lies above the values of the keys before it and below those of
    the keys after it. *)
Lemma monotone_knots_sandwich m index v :
  (∀ k k' vk vk', m !! k = Some vk → m !! k' = Some vk' →
     (k ≤ k')%Z → vk <= vk') →
  interpolate_spec index m v →
  (∀ k vk, m !! k = Some vk → (k ≤ index)%Z → vk <= v) ∧
  (∀ k vk, m !! k = Some vk → (index ≤ k)%Z → v <= vk).
Proof.
  intros Hmono Hv.
  destruct Hv as [v Hk|k0 k1 v0 v1 Hk0 Hk1 Hin Hgap|k0 v Hk0 Hmin Hlt
                 |k0 v Hk0 Hmax Hlt].
  - split; intros k vk Hvk Hle; eauto.
  - assert (v0 <= v1) as H01 by (eapply Hmono; eauto; lia).
    pose proof (bracket_between k0 k1 index v0 v1 v0 v1 Hin) as Hb.
    split; intros k vk Hvk Hle.
    + assert (k ≤ k0)%Z.
      { destruct (decide (k ≤ k0)%Z); [done|].
        rewrite (Hgap k) in Hvk; [done|lia]. }
      trans v0; [eapply Hmono; eauto|lra].
    + assert (k1 ≤ k)%Z.
      { destruct (decide (k1 ≤ k)%Z); [done|].
        rewrite (Hgap k) in Hvk; [done|lia]. }
      trans v1; [lra|eapply Hmono; eauto].
  - destruct Hmin as [_ Hmin]. split; intros k vk Hvk Hle.
    + assert (k0 ≤ k)%Z by (apply Hmin; eauto). lia.
    + eapply Hmono; eauto.
  - destruct Hmax as [_ Hmax]. split; intros k vk Hvk Hle.
    + eapply Hmono; eauto.
    + assert (k ≤ k0)%Z by (apply Hmax; eauto). lia.
Qed.

(** X3.  In exact arithmetic, when the knot values do not decrease with
    the key, the interpolation does not decrease with the index. *)
Theorem interp_linear_monotone m (index index' : Z) (v v' : R) :
  (∀ k k' vk vk', m !! k = Some vk → m !! k' = Some vk' →
     (k ≤ k')%Z → vk <= vk') →
  (index ≤ index')%Z →
  Capture._interp_linear index m = Ok v →
  Capture._interp_linear index' m = Ok v' →
  v <= v'.
Proof.
  intros Hmono Hle Hv Hv'.
  pose proof (interpolate_spec_complete _ _ _ Hv) as Hs.
  pose proof (interpolate_spec_complete _ _ _ Hv') as Hs'.
  destruct (monotone_knots_sandwich m index v Hmono Hs) as [Hbelow Habove].
  destruct (monotone_knots_sandwich m index' v' Hmono Hs') as [Hbelow' Habove'].
  destruct Hs as [v Hk|k0 k1 v0 v1 Hk0 Hk1 Hin Hgap|k0 v Hk0 Hmin Hlt
                 |k0 v Hk0 Hmax Hlt].
  - by eapply Hbelow'.
  - destruct (decide (k1 ≤ index')%Z).
    + trans v1; [eapply Habove; eauto; lia|eapply Hbelow'; eauto].
    + pose proof (real_bracket_in_range index m k0 k1 v0 v1 _
                    Hk0 Hk1 Hin Hgap Hv) as Hnear.
      rewrite (real_interp_linear_between index' m k0 k1 v0 v1) in Hv'
        by (done || lia).
      injection Hv' as <-.
      assert (v0 <= v1) as H01 by (eapply Hmono; eauto; lia).
      assert (IZR index <= IZR index') by by apply IZR_le.
      assert (IZR k0 < IZR k1) by (apply IZR_lt; lia).
      assert (0 < / (IZR k1 - IZR k0)) by (apply Rinv_0_lt_compat; lra).
      assert (0 <= (IZR index' - IZR index) * / (IZR k1 - IZR k0) * (v1 - v0))
        by (repeat apply Rmult_le_pos; lra).
      unfold Rdiv. lra.
  - destruct (decide (k0 ≤ index')%Z).
    + by eapply Hbelow'.
    + rewrite (interp_linear_below index' m k0 v) in Hv' by (done || lia).
      injection Hv' as <-. lra.
  - rewrite (interp_linear_above index' m k0 v) in Hv' by (done || lia).
    injection Hv' as <-. lra.
Qed.

End InterpMore.

Section InterpEveryArithmetic.

(** X5.  The fallback after the bracket search of [_interp_linear] is never
    taken: whenever the function reaches the loop (the index is not a key
    and lies strictly between the first and the last sorted key), the loop
    finds two distinct neighbouring keys around the index. *)
Theorem interp_linear_loop_finds_bracket {V : Type} (m : gmap Z V)
    (index lo hi : Z) :
  m !! index = None →
  first_item (sorted_keys m) = Ok lo →
  (index <=? lo)%Z = false →
  last_item (sorted_keys m) = Ok hi →
  (index >=? hi)%Z = false →
  ∃ k0 k1,
    Capture.find_bracket index (sorted_keys m) = Some (k0, k1) ∧
    (k1 =? k0)%Z = false ∧
    (k0 < index < k1)%Z ∧
    is_Some (m !! k0) ∧ is_Some (m !! k1) ∧
    ∀ k, (k0 < k < k1)%Z → m !! k = None.
Proof.
  intros Hidx Hfirst Hlo Hlast Hhi.
  destruct (sorted_keys m) as [|lo' keys] eqn:Hkeys; [done|].
  injection Hfirst as ->.
  unfold last_item in Hlast.
  destruct (last (lo :: keys)) as [hi'|] eqn:Hlast'; [|done].
  injection Hlast as ->.
  apply Z.leb_gt in Hlo. rewrite Z.geb_leb in Hhi. apply Z.leb_gt in Hhi.
  destruct (find_bracket_inside index lo keys hi)
    as (k0 & k1 & Hfind & Hk & Hk0 & Hk1 & Hsep).
  { rewrite <-Hkeys. apply sorted_keys_lt. }
  { done. }
  { lia. }
  { rewrite <-Hkeys, elem_of_sorted_keys, Hidx. by intros []. }
  rewrite <-Hkeys in Hk0, Hk1, Hsep.
  setoid_rewrite elem_of_sorted_keys in Hsep.
  apply elem_of_sorted_keys in Hk0, Hk1.
  exists k0, k1. split_and!; [done| |lia|lia|done|done|].
  - apply Z.eqb_neq. lia.
  - intros k Hkk. apply eq_None_not_Some. intros Hsome.
    destruct (Hsep k Hsome); lia.
Qed.

(** X6.  In every arithmetic, binary64 included, [_interp_linear] hands
    back stored values untouched: the value of the knot at the index, the
    value of the smallest key for an index at or below it, and the value of
    the largest key for an index at or above it.  No float operation is
    applied to them. *)
Theorem interp_linear_stored_values {F : Type} {PF : PyFloat F}
    (m : gmap Z F) (index k : Z) (v : F) :
  m !! k = Some v →
  index = k ∨ (min_key m k ∧ (index ≤ k)%Z) ∨ (max_key m k ∧ (k ≤ index)%Z) →
  Capture._interp_linear index m = Ok v.
Proof.
  intros Hk [->|[[Hmin Hle]|[Hmax Hle]]].
  - by apply interp_linear_exact.
  - destruct (decide (index = k)) as [->|]; [by apply interp_linear_exact|].
    eapply interp_linear_below; [done..|lia].
  - destruct (decide (index = k)) as [->|]; [by apply interp_linear_exact|].
    eapply interp_linear_above; [done..|lia].
Qed.
End InterpEveryArithmetic.

(** *** The theorems above at the scenario knots *)

Section InterpWitnesses.
Local Open Scope R_scope.

Lemma scenario_lookup {F : Type} {PF : PyFloat F} (k : Z) (v : F) :
  scenario_knots !! k = Some v →
  (k = 0%Z ∧ v = lit 8.039) ∨ (k = 1%Z ∧ v = lit 16.336) ∨
  (k = 5%Z ∧ v = lit 55.519).
Proof.
  unfold scenario_knots. intros Hk. apply elem_of_list_to_map_2 in Hk.
  rewrite !elem_of_cons, elem_of_nil in Hk.
  destruct Hk as [[= -> ->]|[[= -> ->]|[[= -> ->]|[]]]]; auto.
Qed.

Lemma scenario_min_key {F : Type} {PF : PyFloat F} :
  min_key (scenario_knots (F:=F)) 0.
Proof.
  split; [by eexists|]. intros k' [v Hv].
  apply scenario_lookup in Hv. lia.
Qed.

Lemma scenario_max_key {F : Type} {PF : PyFloat F} :
  max_key (scenario_knots (F:=F)) 5.
Proof.
  split; [by eexists|]. intros k' [v Hv].
  apply scenario_lookup in Hv. lia.
Qed.

Lemma scenario_values_increase (k k' : Z) (vk vk' : R) :
  scenario_knots !! k = Some vk → scenario_knots !! k' = Some vk' →
  (k ≤ k')%Z → vk <= vk'.
Proof.
  intros Hk Hk' Hle. apply scenario_lookup in Hk, Hk'.
  destruct Hk as [[-> ->]|[[-> ->]|[-> ->]]],
    Hk' as [[-> ->]|[[-> ->]|[-> ->]]]; rewrite !real_lit; lra || lia.
Qed.

Lemma scenario_values_range (k : Z) (vk : R) :
  scenario_knots !! k = Some vk → 8.039 <= vk <= 55.519.
Proof.
  intros Hk. apply scenario_lookup in Hk.
  destruct Hk as [[-> ->]|[[-> ->]|[-> ->]]]; rewrite !real_lit; lra.
Qed.

Lemma interp_linear_within_values_witness : 8.039 <= 35.9275 <= 55.519.
Proof.
  apply (interp_linear_within_values scenario_knots 3 35.9275 8.039 55.519).
  - apply scenario_values_range.
  - apply scenario_value_real.
Defined.

Lemma interp_linear_monotone_witness : 35.9275 <= lit 55.519.
Proof.
  apply (interp_linear_monotone scenario_knots 3 5 35.9275 (lit 55.519)).
  - apply scenario_values_increase.
  - lia.
  - apply scenario_value_real.
  - reflexivity.
Defined.



Lemma interp_linear_loop_finds_bracket_witness :
  ∃ k0 k1,
    Capture.find_bracket 3 (sorted_keys (scenario_knots (F:=float))) =
      Some (k0, k1) ∧
    (k1 =? k0)%Z = false ∧
    (k0 < 3 < k1)%Z ∧
    is_Some (scenario_knots (F:=float) !! k0) ∧
    is_Some (scenario_knots (F:=float) !! k1) ∧
    ∀ k, (k0 < k < k1)%Z → scenario_knots (F:=float) !! k = None.
Proof.
  apply (interp_linear_loop_finds_bracket (scenario_knots (F:=float)) 3 0 5);
    vm_compute; reflexivity.
Defined.

Lemma interp_linear_stored_values_witness :
  Capture._interp_linear (-4) (scenario_knots (F:=float)) = Ok (lit 8.039).
Proof.
  apply (interp_linear_stored_values scenario_knots (-4) 0 (lit 8.039)).
  - reflexivity.
  - right. left. split; [apply scenario_min_key|lia].
Defined.
End InterpWitnesses.

(** ** More on the grid-to-model mapping *)

Section GridMore.

Lemma X_table_lookup {F : Type} {PF : PyFloat F} (k : Z) (v : F) :
  Capture.X_FROM_GRID_Y_IN !! k = Some v →
  (k, v) ∈ [ (0, lit 8.039); (1, lit 16.336); (5, lit 55.519);
             (9, lit 94.702); (10, lit 102.999) ]%Z.
Proof. apply elem_of_list_to_map_2. Qed.

Lemma Y_table_lookup {F : Type} {PF : PyFloat F} (k : Z) (v : F) :
  Capture.Y_FROM_GRID_X_IN !! k = Some v →
  (k, v) ∈ [ (0, lit 6.02); (1, lit 14.317); (5, lit 53.50);
             (9, lit 92.683); (10, lit 100.98) ]%Z.
Proof. apply elem_of_list_to_map_2. Qed.

Lemma X_table_clamps {F : Type} {PF : PyFloat F} (index : Z) :
  Capture._interp_linear index (Capture.X_FROM_GRID_Y_IN (F:=F)) =
    Capture._interp_linear (clamp_index index) Capture.X_FROM_GRID_Y_IN.
Proof.
  unfold clamp_index. destruct (decide (index < 0)%Z).
  { rewrite X_table_below by done.
    by replace (0 `max` (10 `min` index))%Z with 0%Z by lia. }
  destruct (decide (10 < index)%Z).
  { rewrite X_table_above by done.
    by replace (0 `max` (10 `min` index))%Z with 10%Z by lia. }
  by replace (0 `max` (10 `min` index))%Z with index by lia.
Qed.

Lemma Y_table_clamps {F : Type} {PF : PyFloat F} (index : Z) :
  Capture._interp_linear index (Capture.Y_FROM_GRID_X_IN (F:=F)) =
    Capture._interp_linear (clamp_index index) Capture.Y_FROM_GRID_X_IN.
Proof.
  unfold clamp_index. destruct (decide (index < 0)%Z).
  { rewrite Y_table_below by done.
    by replace (0 `max` (10 `min` index))%Z with 0%Z by lia. }
  destruct (decide (10 < index)%Z).
  { rewrite Y_table_above by done.
    by replace (0 `max` (10 `min` index))%Z with 10%Z by lia. }
  by replace (0 `max` (10 `min` index))%Z with index by lia.
Qed.

(** X7.  In every arithmetic, a cell outside the 0..10 grid is mapped to
    the model point of the nearest cell of the grid: each index is clamped
    to 0..10 before the tables are read. *)
Theorem grid_to_model_in_clamps_indices :
  ∀ (F : Type) (PF : PyFloat F) (gx gy : Z),
    Capture.grid_to_model_in (F:=F) gx gy =
      Capture.grid_to_model_in (clamp_index gx) (clamp_index gy).
Proof.
  intros F PF gx gy. unfold Capture.grid_to_model_in.
  by rewrite (X_table_clamps gy), (Y_table_clamps gx).
Qed.

Local Open Scope R_scope.

(** X8.  In exact arithmetic every cell, inside the grid or not, is mapped
    into the calibrated rectangle: X in [[8.039, 102.999]], Y in
    [[6.02, 100.98]] (inches), at the fixed height 33.577. *)
Theorem grid_to_model_in_calibrated_box (gx gy : Z) :
  ∃ mx my : R,
    Capture.grid_to_model_in gx gy = Ok (mx, my, 33.577) ∧
    8.039 <= mx <= 102.999 ∧ 6.02 <= my <= 100.98.
Proof.
  destruct (real_tables_return gy) as [[mx Hmx] _].
  destruct (real_tables_return gx) as [_ [my Hmy]].
  exists mx, my. split; [|split].
  - unfold Capture.grid_to_model_in. by rewrite Hmx, Hmy.
  - apply interpolate_spec_complete in Hmx.
    revert Hmx. apply interpolate_spec_within.
    intros k vk Hk. apply X_table_lookup in Hk.
    rewrite !elem_of_cons, elem_of_nil in Hk.
    destruct Hk as [[= -> ->]|[[= -> ->]|[[= -> ->]|[[= -> ->]|[[= -> ->]|[]]]]]];
      rewrite !real_lit; lra.
  - apply interpolate_spec_complete in Hmy.
    revert Hmy. apply interpolate_spec_within.
    intros k vk Hk. apply Y_table_lookup in Hk.
    rewrite !elem_of_cons, elem_of_nil in Hk.
    destruct Hk as [[= -> ->]|[[= -> ->]|[[= -> ->]|[[= -> ->]|[[= -> ->]|[]]]]]];
      rewrite !real_lit; lra.
Qed.
End GridMore.

(** ** More on [norm2d] and [rot2d], in exact arithmetic *)

Section PlaneGeometry.
Local Open Scope R_scope.
Implicit Types (x y k deg : R).

Lemma sqrt_scaled k x y :
  0 <= k → sqrt (k * x * (k * x) + k * y * (k * y)) = k * sqrt (x * x + y * y).
Proof.
  intros Hk.
  replace (k * x * (k * x) + k * y * (k * y)) with (k * k * (x * x + y * y))
    by lra.
  rewrite sqrt_mult by nra. by rewrite sqrt_square.
Qed.

(** A multiple of a unit vector by more than [1e-9] normalises to it. *)
Lemma norm2d_of_multiple (r ux uy : R) :
  1e-9 < r → ux * ux + uy * uy = 1 →
  Capture.norm2d (r * ux) (r * uy) = Ok (ux, uy).
Proof.
  intros Hr Hunit.
  assert (sqrt (r * ux * (r * ux) + r * uy * (r * uy)) = r) as Hmag.
  { rewrite sqrt_scaled by lra. rewrite Hunit, sqrt_1. lra. }
  rewrite norm2d_large by (rewrite Hmag; lra).
  rewrite Hmag. f_equal. f_equal; field; lra.
Qed.

(** X9.  In exact arithmetic [norm2d] is idempotent and odd: normalising
    its result changes nothing, and the opposite vector normalises to the
    opposite result. *)
Theorem norm2d_idempotent_and_odd x y :
  ∃ ux uy,
    Capture.norm2d x y = Ok (ux, uy) ∧
    Capture.norm2d ux uy = Ok (ux, uy) ∧
    Capture.norm2d (- x) (- y) = Ok (- ux, - uy).
Proof.
  assert (sqrt (- x * - x + - y * - y) = sqrt (x * x + y * y)) as Hopp
    by (f_equal; lra).
  destruct (Rle_dec (sqrt (x * x + y * y)) 1e-9) as [Hsmall|Hlarge].
  - exists 0, 0. split_and!.
    + by apply norm2d_small.
    + apply norm2d_small. replace (0 * 0 + 0 * 0) with 0 by lra.
      rewrite sqrt_0. lra.
    + rewrite norm2d_small by (by rewrite Hopp). f_equal. f_equal; lra.
  - set (mag := sqrt (x * x + y * y)) in *.
    assert (mag * mag = x * x + y * y) as Hsq by apply sqrt_sum_squares_sq.
    exists (x / mag), (y / mag). split_and!.
    + apply norm2d_large. fold mag. lra.
    + replace (x / mag) with (1 * (x / mag)) at 1 by lra.
      replace (y / mag) with (1 * (y / mag)) at 1 by lra.
      apply norm2d_of_multiple; [lra|].
      field_simplify_eq; [|lra]. lra.
    + rewrite norm2d_large by (rewrite Hopp; fold mag; lra).
      rewrite Hopp. fold mag. f_equal. f_equal; field; lra.
Qed.

(** X10.  In exact arithmetic [norm2d] depends on the direction only:
    scaling a vector by a positive factor does not change the result, as
    long as both magnitudes stay above [1e-9]. *)
Theorem norm2d_scale_invariant k x y :
  0 < k →
  1e-9 < math_hypot x y →
  1e-9 < math_hypot (k * x) (k * y) →
  Capture.norm2d (k * x) (k * y) = Capture.norm2d x y.
Proof.
  rewrite !real_hypot. intros Hk Hmag Hkmag.
  rewrite (norm2d_large x y) by done.
  rewrite (norm2d_large (k * x) (k * y)) by done.
  rewrite sqrt_scaled by lra. f_equal. f_equal; field; lra.
Qed.

Lemma real_rot2d x y deg :
  Capture.rot2d x y deg =
    (x * cos (deg * (PI / 180)) - y * sin (deg * (PI / 180)),
     x * sin (deg * (PI / 180)) + y * cos (deg * (PI / 180))).
Proof. reflexivity. Qed.

(** X11.  In exact arithmetic rotations compose by adding their angles:
    [rot2d] by [a] then by [b] is [rot2d] by [a + b]; by 0 degrees it is
    the identity; and [rot2d] by [-a] undoes [rot2d] by [a]. *)
Theorem rot2d_composes x y (a b : R) :
  (let v := Capture.rot2d x y a in
   Capture.rot2d v.1 v.2 b = Capture.rot2d x y (a + b)) ∧
  Capture.rot2d x y 0 = (x, y) ∧
  (let v := Capture.rot2d x y a in Capture.rot2d v.1 v.2 (- a) = (x, y)).
Proof.
  cbv zeta. rewrite !real_rot2d. cbn [fst snd]. split_and!.
  - replace ((a + b) * (PI / 180)) with (a * (PI / 180) + b * (PI / 180))
      by lra.
    rewrite cos_plus, sin_plus. f_equal; ring.
  - replace (0 * (PI / 180)) with 0 by lra. rewrite cos_0, sin_0.
    f_equal; lra.
  - replace (- a * (PI / 180)) with (- (a * (PI / 180))) by lra.
    rewrite cos_neg, sin_neg.
    pose proof (sin2_cos2 (a * (PI / 180))) as Hone. unfold Rsqr in Hone.
    set (c := cos (a * (PI / 180))) in *. set (s := sin (a * (PI / 180))) in *.
    f_equal.
    + trans (x * (s * s + c * c)); [ring|rewrite Hone; ring].
    + trans (y * (s * s + c * c)); [ring|rewrite Hone; ring].
Qed.

(** X12.  In exact arithmetic [rot2d] is an isometry: it keeps the
    magnitude of a vector and the dot product of two vectors. *)
Theorem rot2d_isometry x y (x' y' deg : R) :
  let v := Capture.rot2d x y deg in
  let v' := Capture.rot2d x' y' deg in
  math_hypot v.1 v.2 = math_hypot x y ∧
  v.1 * v'.1 + v.2 * v'.2 = x * x' + y * y'.
Proof.
  cbv zeta. rewrite !real_rot2d, !real_hypot. cbn [fst snd].
  pose proof (sin2_cos2 (deg * (PI / 180))) as Hone. unfold Rsqr in Hone.
  set (c := cos (deg * (PI / 180))) in *.
  set (s := sin (deg * (PI / 180))) in *. split.
  - f_equal. trans ((x * x + y * y) * (s * s + c * c)); [ring|].
    rewrite Hone. ring.
  - trans ((x * x' + y * y') * (s * s + c * c)); [ring|].
    rewrite Hone. ring.
Qed.
End PlaneGeometry.

Lemma norm2d_scale_invariant_witness :
  Capture.norm2d (2 * 3)%R (2 * 4)%R = Capture.norm2d 3%R 4%R.
Proof.
  assert (sqrt (3 * 3 + 4 * 4) = 5)%R as H5.
  { replace (3 * 3 + 4 * 4)%R with (5 * 5)%R by lra. apply sqrt_square. lra. }
  assert (sqrt (2 * 3 * (2 * 3) + 2 * 4 * (2 * 4)) = 10)%R as H10.
  { replace (2 * 3 * (2 * 3) + 2 * 4 * (2 * 4))%R with (10 * 10)%R by lra.
    apply sqrt_square. lra. }
  apply (norm2d_scale_invariant 2 3 4).
  - lra.
  - rewrite real_hypot, H5. lra.
  - rewrite real_hypot, H10. lra.
Defined.

(** ** The direction basis and the poses, in exact arithmetic *)

Section Basis.
Local Open Scope R_scope.

Lemma norm2d_eq (r ux uy x y : R) :
  x = r * ux → y = r * uy → 1e-9 < r → ux * ux + uy * uy = 1 →
  Capture.norm2d x y = Ok (ux, uy).
Proof. intros -> ->. apply norm2d_of_multiple. Qed.

Lemma sqrt2_facts : 1 < sqrt 2 ∧ sqrt 2 * sqrt 2 = 2.
Proof.
  split.
  - rewrite <-sqrt_1 at 1. apply sqrt_lt_1; lra.
  - apply sqrt_sqrt. lra.
Qed.

Lemma inv_sqrt2_facts :
  sqrt 2 * / sqrt 2 = 1 ∧ / sqrt 2 * / sqrt 2 = / 2 ∧ 0 < / sqrt 2.
Proof.
  destruct sqrt2_facts as [Hgt Hsq].
  split_and!.
  - apply Rinv_r. lra.
  - rewrite <-Rinv_mult, Hsq. done.
  - apply Rinv_0_lt_compat. lra.
Qed.

Ltac head_norm2d r ux uy side :=
  match goal with
  | |- (Capture.norm2d ?a ?b ≫= _) = _ =>
      rewrite (norm2d_eq r ux uy a b); [cbn [mbind res_bind]|side..]
  end.

Ltac axis_side :=
  unfold fsub, real_PyFloat; cbn [fst snd];
  rewrite ?real_inches_to_cm, ?real_lit; lra.

Ltac diagonal_side :=
  destruct sqrt2_facts, inv_sqrt2_facts as (? & ? & ?);
  unfold fadd, fneg, real_PyFloat; cbn [fst snd]; nra.

Lemma real_direction_sets :
  Capture.direction_sets =
    Ok ([ ("north", (-1, 0)); ("east", (0, 1));
          ("south", (1, 0)); ("west", (0, -1)) ],
        [ ("ne", (- / sqrt 2, / sqrt 2)); ("se", (/ sqrt 2, / sqrt 2));
          ("sw", (/ sqrt 2, - / sqrt 2)); ("nw", (- / sqrt 2, - / sqrt 2)) ]).
Proof.
  unfold Capture.direction_sets.
  change (Capture.model_xy_cm 5 5)
    with (Ok (Capture.inches_to_cm (lit (F:=R) 55.519),
              Capture.inches_to_cm (lit (F:=R) 53.50))).
  change (Capture.model_xy_cm 5 0)
    with (Ok (Capture.inches_to_cm (lit (F:=R) 8.039),
              Capture.inches_to_cm (lit (F:=R) 53.50))).
  change (Capture.model_xy_cm 10 5)
    with (Ok (Capture.inches_to_cm (lit (F:=R) 55.519),
              Capture.inches_to_cm (lit (F:=R) 100.98))).
  cbn [mbind res_bind fst snd].
  head_norm2d 120.5992 (-1) 0 axis_side.
  head_norm2d 120.5992 0 1 axis_side.
  head_norm2d (sqrt 2) (- / sqrt 2) (/ sqrt 2) diagonal_side.
  head_norm2d (sqrt 2) (/ sqrt 2) (/ sqrt 2) diagonal_side.
  head_norm2d (sqrt 2) (/ sqrt 2) (- / sqrt 2) diagonal_side.
  head_norm2d (sqrt 2) (- / sqrt 2) (- / sqrt 2) diagonal_side.
  unfold mret, res_ret, fneg, real_PyFloat. cbn [fst snd].
  repeat f_equal; lra.
Qed.

Lemma real_directions_unit (d : string * (R * R)) :
  d ∈ [ ("north", (-1, 0)); ("east", (0, 1));
        ("south", (1, 0)); ("west", (0, -1));
        ("ne", (- / sqrt 2, / sqrt 2)); ("se", (/ sqrt 2, / sqrt 2));
        ("sw", (/ sqrt 2, - / sqrt 2)); ("nw", (- / sqrt 2, - / sqrt 2)) ] →
  d.2.1 * d.2.1 + d.2.2 * d.2.2 = 1.
Proof.
  destruct inv_sqrt2_facts as (_ & Hhalf & _).
  rewrite !elem_of_cons, elem_of_nil.
  intros [->|[->|[->|[->|[->|[->|[->|[->|[]]]]]]]]]; cbn [fst snd]; nra.
Qed.

(** X13.  In exact arithmetic the direction basis [run] derives from the
    cells (5,5), (5,0) and (10,5) is: north [(-1, 0)], east [(0, 1)],
    south [(1, 0)], west [(0, -1)] and the diagonals [(-s, s)], [(s, s)],
    [(s, -s)], [(-s, -s)] with [s = 1 / sqrt 2].  North points down the
    model X axis and east up the model Y axis; the eight directions are
    unit vectors. *)
Theorem direction_sets_values :
  let s := / sqrt 2 in
  ∃ dirs_cardinal dirs_diagonal,
    Capture.direction_sets = Ok (dirs_cardinal, dirs_diagonal) ∧
    dirs_cardinal =
      [ ("north", (-1, 0)); ("east", (0, 1));
        ("south", (1, 0)); ("west", (0, -1)) ] ∧
    dirs_diagonal =
      [ ("ne", (- s, s)); ("se", (s, s)); ("sw", (s, - s)); ("nw", (- s, - s)) ] ∧
    Forall (λ d, math_hypot d.2.1 d.2.2 = 1) (dirs_cardinal ++ dirs_diagonal).
Proof.
  intros s. eexists _, _. split; [apply real_direction_sets|].
  split; [done|]. split; [done|].
  apply Forall_forall. intros d Hd. rewrite real_hypot.
  rewrite (real_directions_unit d Hd). apply sqrt_1.
Qed.

Lemma real_pitch :
  math_radians (Capture.PITCH_UP_DEG (F:=R)) = 15 * (PI / 180).
Proof.
  unfold Capture.PITCH_UP_DEG. rewrite !real_lit.
  unfold math_radians, real_PyMath. lra.
Qed.

Lemma real_eye_poses (cx cy cz half fx fy : R) :
  let theta := 50 * (PI / 180) in
  let pitch := 15 * (PI / 180) in
  Capture.eye_poses cx cy cz half (fx, fy) =
    ((cx - fy * (half * 2.54), cy - - fx * (half * 2.54), cz),
     ((fx * cos theta - fy * sin theta) * cos pitch,
      (fx * sin theta + fy * cos theta) * cos pitch, sin pitch),
     (cx + fy * (half * 2.54), cy + - fx * (half * 2.54), cz),
     ((fx * cos (- theta) - fy * sin (- theta)) * cos pitch,
      (fx * sin (- theta) + fy * cos (- theta)) * cos pitch, sin pitch)).
Proof.
  intros theta pitch. unfold Capture.eye_poses, Capture.rot2d.
  rewrite real_yaw, real_yaw_neg, real_pitch, !real_inches_to_cm.
  reflexivity.
Qed.

Lemma unit_forward3 (fx fy theta pitch : R) :
  fx * fx + fy * fy = 1 →
  real_length3
    ((fx * cos theta - fy * sin theta) * cos pitch,
     (fx * sin theta + fy * cos theta) * cos pitch, sin pitch) = 1.
Proof.
  intros Hunit. unfold real_length3. cbn [fst snd].
  pose proof (sin2_cos2 theta) as Ht. pose proof (sin2_cos2 pitch) as Hp.
  unfold Rsqr in Ht, Hp.
  set (c := cos theta) in *. set (s := sin theta) in *.
  set (cp := cos pitch) in *. set (sp := sin pitch) in *.
  rewrite <-sqrt_1. f_equal.
  trans ((fx * fx + fy * fy) * (s * s + c * c) * (cp * cp) + sp * sp); [ring|].
  rewrite Hunit, Ht. lra.
Qed.

(** X14.  In exact arithmetic, for a unit base direction (as the eight
    directions of [run] are) the forward vectors of both eyes are unit
    vectors raised by the pitch (their z is [sin 15 degrees]); the two
    eyes are exactly 1.27 cm (the 0.5 inch separation) apart; and the line
    between them is perpendicular to the base direction. *)
Theorem eye_poses_of_unit_direction (cx cy cz fx fy : R) :
  fx * fx + fy * fy = 1 →
  let '(left_eye_pt, left_fwd3, right_eye_pt, right_fwd3) :=
    Capture.eye_poses cx cy cz 0.25 (fx, fy) in
  real_length3 left_fwd3 = 1 ∧ real_length3 right_fwd3 = 1 ∧
  left_fwd3.2 = sin (15 * (PI / 180)) ∧
  right_fwd3.2 = sin (15 * (PI / 180)) ∧
  math_hypot (right_eye_pt.1.1 - left_eye_pt.1.1)
             (right_eye_pt.1.2 - left_eye_pt.1.2) = 1.27 ∧
  (right_eye_pt.1.1 - left_eye_pt.1.1) * fx +
    (right_eye_pt.1.2 - left_eye_pt.1.2) * fy = 0.
Proof.
  intros Hunit. rewrite real_eye_poses. cbn [fst snd]. split_and!.
  - by apply unit_forward3.
  - by apply unit_forward3.
  - reflexivity.
  - reflexivity.
  - rewrite real_hypot.
    replace 1.27 with (1.27 * sqrt 1) by (rewrite sqrt_1; lra).
    rewrite <-Hunit, <-sqrt_scaled by lra. f_equal. lra.
  - lra.
Qed.
Lemma eye_poses_of_unit_direction_witness :
  let '(left_eye_pt, left_fwd3, right_eye_pt, right_fwd3) :=
    Capture.eye_poses 141.01826 135.89 91.63558 0.25 (-1, 0) in
  (real_length3 left_fwd3 = 1 ∧ real_length3 right_fwd3 = 1 ∧
   left_fwd3.2 = sin (15 * (PI / 180)) ∧
   right_fwd3.2 = sin (15 * (PI / 180)) ∧
   math_hypot (right_eye_pt.1.1 - left_eye_pt.1.1)
              (right_eye_pt.1.2 - left_eye_pt.1.2) = 1.27 ∧
   (right_eye_pt.1.1 - left_eye_pt.1.1) * -1 +
     (right_eye_pt.1.2 - left_eye_pt.1.2) * 0 = 0).
Proof.
  apply (eye_poses_of_unit_direction 141.01826 135.89 91.63558 (-1) 0).
  lra.
Defined.
End Basis.

Section RunLog.
Context {F : Type} {PF : PyFloat F} {PM : PyMath F} {PB : PyBuiltins}.
Implicit Types (app : host F) (d : string * (F * F)).

Lemma run_cell_app out_dir prefix (dc dd : list (string * (F * F))) half app cell :
  Capture.run_cell out_dir prefix dc dd half app cell =
    log ← Capture.run_cell out_dir prefix dc dd half [] cell; mret (app ++ log).
Proof.
  destruct cell as [gx gy]. unfold Capture.run_cell.
  destruct (Capture.grid_to_model_in gx gy) as [[[mx my] mz]|e]; [|done].
  cbn [mbind res_bind mret res_ret]. f_equal. apply run_directions_app.
Qed.

Lemma run_cells_app out_dir prefix (dc dd : list (string * (F * F))) half
    positions app :
  Capture.run_cells out_dir prefix dc dd half app positions =
    ((Capture.run_cells out_dir prefix dc dd half [] positions).1,
     app ++ (Capture.run_cells out_dir prefix dc dd half [] positions).2).
Proof.
  revert app. induction positions as [|cell rest IH]; intros app.
  - simpl. by rewrite (right_id_L [] (++)).
  - cbn [Capture.run_cells]. rewrite (run_cell_app _ _ _ _ _ app).
    destruct (Capture.run_cell out_dir prefix dc dd half [] cell) as [log|e].
    + cbn [mbind res_bind mret res_ret].
      rewrite (IH (app ++ log)), (IH log). cbn [fst snd].
      by rewrite (assoc_L (++)).
    + cbn [mbind res_bind fst snd]. by rewrite (right_id_L [] (++)).
Qed.

Lemma run_directions_Forall (P : capture_call F → Prop) out_dir prefix
    gx gy cx cy cz half (dirs : list (string * (F * F))) :
  (∀ d, d ∈ dirs →
     Forall P (Capture.run_direction out_dir prefix gx gy cx cy cz half [] d)) →
  Forall P (foldl (Capture.run_direction out_dir prefix gx gy cx cy cz half) [] dirs).
Proof.
  induction dirs as [|d dirs IH]; intros Hdirs; [by apply Forall_nil_2|].
  cbn [foldl]. rewrite run_directions_app. apply Forall_app. split.
  - apply Hdirs, elem_of_cons; by left.
  - apply IH. intros d' Hd'. apply Hdirs, elem_of_cons; by right.
Qed.

Lemma run_cells_Forall (P : capture_call F → Prop) out_dir prefix
    (dc dd : list (string * (F * F))) half positions :
  (∀ gx gy cx cy d, d ∈ dc ++ dd →
     Forall P (Capture.run_direction out_dir prefix gx gy cx cy
                 (Capture.inches_to_cm Capture.EYE_Z_IN) half [] d)) →
  Forall P (Capture.run_cells out_dir prefix dc dd half [] positions).2.
Proof.
  intros Hdir. induction positions as [|[gx gy] rest IH]; [by apply Forall_nil_2|].
  cbn [Capture.run_cells]. unfold Capture.run_cell.
  destruct (Capture.grid_to_model_in gx gy) as [[[mx my] mz]|e];
    [|by apply Forall_nil_2].
  cbn [mbind res_bind mret res_ret]. rewrite run_cells_app. cbn [snd].
  apply Forall_app. split; [|done].
  apply run_directions_Forall. intros d Hd. apply Hdir.
  apply elem_of_app. unfold Capture.cell_dirs in Hd.
  destruct (Capture.is_corner gx gy); auto.
Qed.

Lemma run_Forall (P : capture_call F → Prop) (script_dir : string)
    (file_lines : list string) :
  (∀ half prefix dc dd gx gy cx cy d,
     Capture.HALF_BASE_IN = Ok half →
     Capture.direction_sets = Ok (dc, dd) →
     d ∈ dc ++ dd →
     Forall P
       (Capture.run_direction
          (path_join (path_join script_dir "photos") prefix) prefix gx gy cx cy
          (Capture.inches_to_cm Capture.EYE_Z_IN) half [] d)) →
  Forall P (Capture.run script_dir file_lines []).2.
Proof.
  intros Hdir. unfold Capture.run.
  destruct Capture.HALF_BASE_IN as [half|e] eqn:Hhalf; [|by apply Forall_nil_2].
  cbn [mbind res_bind].
  destruct (Capture.parse_positions_txt file_lines) as [[prefix positions]|e];
    [|by apply Forall_nil_2].
  cbn [mbind res_bind].
  destruct Capture.direction_sets as [[dc dd]|e] eqn:Hsets; [|by apply Forall_nil_2].
  cbn [mbind res_bind mret res_ret].
  pose proof (run_cells_Forall P (path_join (path_join script_dir "photos") prefix)
                prefix dc dd half positions) as Hcells.
  destruct (Capture.run_cells _ prefix dc dd half [] positions) as [[e|] log];
    cbn [snd] in *; apply Hcells; intros; by eapply Hdir.
Qed.

(** X16.  In every reading of float arithmetic, every request [run] of
    capture.py makes, whatever the cell and the direction, has the field of
    view [VFOV_DEG] and an eye at the height [inches_to_cm EYE_Z_IN]. *)
Theorem run_requests_share_fov_and_height (script_dir : string)
    (file_lines : list string) :
  Forall (λ call,
      call_vfov call = Capture.VFOV_DEG ∧
      (call_eye call).2 = Capture.inches_to_cm Capture.EYE_Z_IN)
    (Capture.run script_dir file_lines []).2.
Proof.
  apply run_Forall. intros half prefix dc dd gx gy cx cy [name base] _ _ _.
  unfold Capture.run_direction, Capture.set_camera_and_capture,
    Capture.eye_poses.
  cbn [app]. repeat apply Forall_cons_2; try apply Forall_nil_2; done.
Qed.

Context {GR : GeometryReturns F}.

(** X17.  When every line of positions.txt is blank or a comment, [run] of
    capture.py reports the missing-prefix error and the host has no new
    request. *)
Theorem run_without_prefix_captures_nothing (script_dir : string)
    (file_lines : list string) (app : host F) :
  Forall blank_or_comment file_lines →
  Capture.run script_dir file_lines app = (Failed missing_prefix_error, app).
Proof.
  intros Hall. destruct half_base_returns as [half Hhalf].
  unfold Capture.run.
  by rewrite Hhalf, (parse_positions_txt_raises file_lines Hall).
Qed.
End RunLog.

Lemma run_without_prefix_captures_nothing_witness :
  Capture.run (F:=R) (PB:=ascii_PyBuiltins) "/scripts" ["# cells"; "  "] [] =
    (Failed missing_prefix_error, []).
Proof.
  apply (run_without_prefix_captures_nothing (F:=R) (PB:=ascii_PyBuiltins)).
  repeat apply Forall_cons_2; try apply Forall_nil_2.
  - right. reflexivity.
  - left. reflexivity.
Defined.

Section RealRun.
Context {PB : PyBuiltins}.
Local Open Scope R_scope.

Lemma real_normalize_unit (v : R * R * R) :
  real_length3 v = 1 → vector3d_normalize v = v.
Proof.
  intros Hunit. unfold vector3d_normalize, real_AdskVector. cbv zeta.
  rewrite Hunit. destruct (decide (1 = 0)) as [H|_]; [lra|].
  destruct v as [[x y] z]. cbn [fst snd]. repeat f_equal; field.
Qed.

(** X18.  In exact arithmetic every request [run] of capture.py makes has a
    forward vector of length one, raised by the pitch (its z is
    [sin 15 degrees]); normalizing it changes nothing, so the look-at
    target [set_camera_and_capture] derives is the eye moved by ten times
    the forward vector. *)
Theorem run_forward_vectors_unit (script_dir : string)
    (file_lines : list string) :
  Forall (λ call,
      let eye := call_eye call in
      let fwd := call_fwd call in
      real_length3 fwd = 1 ∧ fwd.2 = sin (15 * (PI / 180)) ∧
      Capture.capture_target eye fwd =
        (eye.1.1 + 10 * fwd.1.1, eye.1.2 + 10 * fwd.1.2, eye.2 + 10 * fwd.2))
    (Capture.run script_dir file_lines []).2.
Proof.
  apply run_Forall.
  intros half prefix dc dd gx gy cx cy [name [fx fy]] _ Hsets Hd.
  rewrite real_direction_sets in Hsets. injection Hsets as <- <-.
  apply real_directions_unit in Hd. cbn [fst snd] in Hd.
  unfold Capture.run_direction, Capture.set_camera_and_capture.
  rewrite real_eye_poses. cbn [app].
  assert (∀ eye fwd : R * R * R, real_length3 fwd = 1 →
            Capture.capture_target eye fwd =
              (eye.1.1 + 10 * fwd.1.1, eye.1.2 + 10 * fwd.1.2,
               eye.2 + 10 * fwd.2)) as Htarget.
  { intros eye fwd Hunit. unfold Capture.capture_target. cbv zeta.
    rewrite (real_normalize_unit fwd Hunit), !real_lit.
    unfold fadd, fmul, real_PyFloat. f_equal; [f_equal|]; lra. }
  repeat apply Forall_cons_2; try apply Forall_nil_2; cbn [call_eye call_fwd];
    cbv zeta; (split; [by apply unit_forward3|]);
    (split; [reflexivity|]); by apply Htarget, unit_forward3.
Qed.
End RealRun.

Section Strings.
Implicit Types (s t u : string) (c : ascii) (P : ascii → bool).

Lemma string_app_cons c s t : String c s +:+ t = String c (s +:+ t).
Proof. reflexivity. Qed.

Lemma string_app_nil_l s : "" +:+ s = s.
Proof. reflexivity. Qed.


Lemma string_forallb_impl P (Q : ascii → bool) s :
  (∀ c, P c = true → Q c = true) →
  string_forallb P s = true → string_forallb Q s = true.
Proof.
  intros HPQ. induction s as [|c s IH]; [done|]. simpl.
  rewrite !andb_true_iff. intros [Hc Hs]. auto.
Qed.

Lemma string_app_assoc s t u : (s +:+ t) +:+ u = s +:+ t +:+ u.
Proof.
  induction s as [|c s IH]; [done|]. rewrite !string_app_cons. by f_equal.
Qed.


(** *** [str] of an integer *)

Lemma pretty_N_char_digit (x : N) :
  (x < 10)%N →
  Ascii.is_nat (pretty_N_char x) = Some (N.to_nat x) ∧
  pretty_N_char x ≠ "_"%char.
Proof.
  intros Hx.
  assert (x = 0 ∨ x = 1 ∨ x = 2 ∨ x = 3 ∨ x = 4 ∨ x = 5 ∨ x = 6 ∨ x = 7
          ∨ x = 8 ∨ x = 9)%N
    as [->|[->|[->|[->|[->|[->|[->|[->|[->| ->]]]]]]]]] by lia;
    by split.
Qed.

Lemma pretty_N_go_digits (x : N) s :
  (0 < x)%N →
  ascii_digits 0 false (pretty_N_go x s) = ascii_digits (Z.of_N x) true s.
Proof.
  revert s. induction (N.lt_wf_0 x) as [x _ IH]. intros s Hx.
  rewrite pretty_N_go_step by done.
  destruct (pretty_N_char_digit (x `mod` 10)) as [Hdigit Hunder].
  { by apply N.mod_lt. }
  assert (Z.of_N x = 10 * Z.of_N (x `div` 10) + Z.of_nat (N.to_nat (x `mod` 10)))%Z
    as Hx10.
  { pose proof (N.div_mod x 10 ltac:(done)) as Hdm. rewrite N_nat_Z.
    rewrite Hdm at 1. rewrite N2Z.inj_add, N2Z.inj_mul. done. }
  destruct (decide (x `div` 10 = 0)%N) as [Hzero|Hpos].
  - rewrite Hzero in *. rewrite pretty_N_go_0. cbn [ascii_digits].
    destruct (decide (pretty_N_char (x `mod` 10) = "_"%char)); [done|].
    rewrite Hdigit, Hx10. done.
  - rewrite IH; [|apply N.div_lt; lia|by apply N.neq_0_lt_0]. cbn [ascii_digits].
    destruct (decide (pretty_N_char (x `mod` 10) = "_"%char)); [done|].
    by rewrite Hdigit, Hx10.
Qed.

Lemma pretty_N_go_chars P (x : N) s :
  (∀ n, (n < 10)%N → P (pretty_N_char n) = true) →
  string_forallb P s = true → string_forallb P (pretty_N_go x s) = true.
Proof.
  intros HP. revert s. induction (N.lt_wf_0 x) as [x _ IH]. intros s Hs.
  destruct (decide (x = 0)%N) as [->|Hx]; [by rewrite pretty_N_go_0|].
  rewrite pretty_N_go_step by lia. apply IH; [apply N.div_lt; lia|].
  simpl. rewrite Hs, HP; [done|]. by apply N.mod_lt.
Qed.

Lemma pretty_N_char_is_digit (n : N) : is_digit (pretty_N_char n) = true.
Proof. unfold pretty_N_char. by repeat case_match. Qed.

Lemma pretty_positive_digits (p : positive) :
  string_forallb is_digit (pretty (N.pos p)) = true ∧
  ascii_digits 0 false (pretty (N.pos p)) = Some (Z.pos p).
Proof.
  unfold pretty, pretty_N. destruct (decide (N.pos p = 0%N)); [done|]. split.
  - apply pretty_N_go_chars; [|done]. intros k _. apply pretty_N_char_is_digit.
  - by rewrite pretty_N_go_digits.
Qed.

Lemma str_of_int_chars (n : Z) :
  string_forallb is_int_char (str_of_int n) = true.
Proof.
  assert (∀ p, string_forallb is_int_char (pretty (N.pos p)) = true) as Hpos.
  { intros p. apply (string_forallb_impl is_digit).
    - intros c Hc. unfold is_int_char. by rewrite Hc.
    - apply pretty_positive_digits. }
  unfold str_of_int, pretty, pretty_Z. destruct n as [|p|p]; [done|apply Hpos|].
  simpl. apply Hpos.
Qed.

(** *** [str.strip] *)









(** *** [int] of [str] *)



Lemma is_int_char_not_underscore c :
  is_int_char c = true → bool_decide (c ≠ "_"%char) = true.
Proof. destruct c as [[] [] [] [] [] [] [] []]; done. Qed.






(** [int] reads a string of 4300 digits and refuses one of 4301. *)
Lemma ascii_int_digit_limit :
  returns (ascii_int (string_of_list_ascii (repeat "1"%char 4300))) = true ∧
  ascii_int (string_of_list_ascii (repeat "1"%char 4301)) = Raise ValueError.
Proof. split; lazy; reflexivity. Qed.

(** *** [str.split] *)



(** Two strings without the separator, each followed by the separator:
    equal wholes have equal parts. *)
Lemma string_app_sep_inj (sep : ascii) s s' t t' :
  string_forallb (λ c, bool_decide (c ≠ sep)) s = true →
  string_forallb (λ c, bool_decide (c ≠ sep)) s' = true →
  s +:+ String sep t = s' +:+ String sep t' → s = s' ∧ t = t'.
Proof.
  revert s'. induction s as [|c s IH]; intros [|c' s'] Hs Hs';
    rewrite ?string_app_cons, ?string_app_nil_l; intros Heq.
  - by injection Heq as ->.
  - injection Heq as <- _. cbn [string_forallb] in Hs'.
    apply andb_true_iff in Hs' as [Hc _]. by apply bool_decide_eq_true in Hc.
  - injection Heq as -> _. cbn [string_forallb] in Hs.
    apply andb_true_iff in Hs as [Hc _]. by apply bool_decide_eq_true in Hc.
  - injection Heq as -> Heq. cbn [string_forallb] in Hs, Hs'.
    apply andb_true_iff in Hs as [_ Hs]. apply andb_true_iff in Hs' as [_ Hs'].
    destruct (IH s' Hs Hs' Heq) as [-> ->]. done.
Qed.

(** *** A line [gx,gy] of positions.txt *)


Lemma str_of_int_no_underscore (n : Z) :
  string_forallb (λ c, bool_decide (c ≠ "_"%char)) (str_of_int n) = true.
Proof.
  apply (string_forallb_impl is_int_char);
    [apply is_int_char_not_underscore|apply str_of_int_chars].
Qed.








End Strings.

Section FileNames.
Context {F : Type} {PF : PyFloat F} {PM : PyMath F} {GR : GeometryReturns F}.
Local Existing Instance ascii_PyBuiltins.

(** The paths of the requests of a run that parses its positions.txt. *)
Lemma run_log_paths (script_dir : string) (file_lines : list string)
    (prefix : string) (positions : list (Z * Z)) :
  Capture.parse_positions_txt file_lines = Ok (prefix, positions) →
  call_path <$> (Capture.run (F:=F) script_dir file_lines []).2 =
    path_join (path_join (path_join script_dir "photos") prefix) <$>
      run_file_names prefix positions.
Proof.
  intros Hparse. set (out_dir := path_join (path_join script_dir "photos") prefix).
  destruct half_base_returns as [half Hhalf].
  destruct direction_sets_return
    as (n & e & s & w & ne & se & sw & nw & Hsets & _).
  set (dc := [("north", n); ("east", e); ("south", s); ("west", w)]) in *.
  set (dd := [("ne", ne); ("se", se); ("sw", sw); ("nw", nw)]) in *.
  set (block := λ cell : Z * Z,
    match Capture.run_cell out_dir prefix dc dd half [] cell with
    | Ok calls => calls
    | Raise _ => []
    end).
  assert (∀ app cell,
    Capture.run_cell out_dir prefix dc dd half app cell = Ok (app ++ block cell))
    as Hcell.
  { intros app' [gx gy]. unfold block.
    destruct (run_cell_returns out_dir prefix dc dd half gx gy) as (cx & cy & Hrun).
    rewrite !Hrun. f_equal. apply run_directions_app. }
  assert (∀ cell,
    call_path <$> block cell = path_join out_dir <$> cell_names prefix cell)
    as Hpaths.
  { intros [gx gy]. unfold block, cell_names. cbn [fst snd].
    destruct (run_cell_returns out_dir prefix dc dd half gx gy) as (cx & cy & ->).
    rewrite run_directions_paths. unfold Capture.cell_dirs.
    by destruct (Capture.is_corner gx gy). }
  unfold Capture.run. rewrite Hhalf, Hparse, Hsets.
  cbn [mbind res_bind mret res_ret]. fold out_dir dc dd.
  rewrite (run_cells_blocks _ _ _ _ _ block) by done. cbn [snd app].
  unfold run_file_names. clear -Hpaths.
  induction positions as [|cell rest IH]; [done|].
  rewrite fmap_cons. cbn [concat]. rewrite bind_cons, !fmap_app, IH.
  by rewrite Hpaths.
Qed.

Lemma cell_names_suffixes prefix (cell : Z * Z) :
  cell_names prefix cell =
    (λ suffix,
       prefix +:+ "_" +:+ str_of_int cell.1 +:+ "_" +:+ str_of_int cell.2
         +:+ "_" +:+ suffix) <$>
      name_suffixes
        (if Capture.is_corner cell.1 cell.2 then diagonal_names
         else cardinal_names).
Proof. unfold cell_names. by destruct (Capture.is_corner cell.1 cell.2). Qed.

Lemma name_suffixes_NoDup (b : bool) :
  NoDup (name_suffixes (if b then diagonal_names else cardinal_names)).
Proof. destruct b; by apply (bool_decide_unpack _). Qed.

Lemma file_name_inj prefix (cell cell' : Z * Z) suffix suffix' :
  prefix +:+ "_" +:+ str_of_int cell.1 +:+ "_" +:+ str_of_int cell.2
    +:+ "_" +:+ suffix =
  prefix +:+ "_" +:+ str_of_int cell'.1 +:+ "_" +:+ str_of_int cell'.2
    +:+ "_" +:+ suffix' →
  cell = cell' ∧ suffix = suffix'.
Proof.
  intros Heq. apply (inj (String.append prefix)) in Heq.
  rewrite !(string_app_cons "_" ""), !string_app_nil_l in Heq.
  injection Heq as Heq.
  apply string_app_sep_inj in Heq as [Hgx Heq];
    [|apply str_of_int_no_underscore..].
  apply string_app_sep_inj in Heq as [Hgy Heq];
    [|apply str_of_int_no_underscore..].
  apply (inj pretty) in Hgx. apply (inj pretty) in Hgy.
  destruct cell, cell'; cbn [fst snd] in *. by subst.
Qed.

Lemma cell_names_NoDup prefix (cell : Z * Z) : NoDup (cell_names prefix cell).
Proof.
  rewrite cell_names_suffixes. apply NoDup_fmap_2_strong.
  - intros suffix suffix' _ _ Heq. by apply (file_name_inj _ cell cell) in Heq as [_ ?].
  - apply name_suffixes_NoDup.
Qed.

Lemma run_file_names_NoDup prefix (positions : list (Z * Z)) :
  NoDup positions → NoDup (run_file_names prefix positions).
Proof.
  intros Hpos. unfold run_file_names. apply NoDup_bind; [|intros; apply cell_names_NoDup|done].
  intros cell cell' name _ _. rewrite !cell_names_suffixes, !list_elem_of_fmap.
  intros (suffix & -> & _) (suffix' & Heq & _).
  by apply file_name_inj in Heq as [? _].
Qed.

Lemma posix_join_inj (a prefix rest rest' : string) :
  posix_join a (prefix +:+ String "_" rest) =
    posix_join a (prefix +:+ String "_" rest') →
  rest = rest'.
Proof.
  unfold posix_join.
  assert (startswith "/" (prefix +:+ String "_" rest) =
          startswith "/" (prefix +:+ String "_" rest')) as <-.
  { destruct prefix as [|c prefix]; [done|].
    rewrite !string_app_cons. unfold startswith. cbn [String.prefix].
    destruct (ascii_dec _ _); [|done].
    by destruct (prefix +:+ String "_" rest), (prefix +:+ String "_" rest'). }
  destruct (startswith "/" (prefix +:+ String "_" rest)).
  { intros Heq. apply (inj (String.append prefix)) in Heq. by injection Heq. }
  destruct (decide (a = "")).
  { intros Heq. apply (inj (String.append prefix)) in Heq. by injection Heq. }
  destruct (startswith "/" (String.rev a)); intros Heq;
    apply (inj (String.append a)) in Heq.
  - apply (inj (String.append prefix)) in Heq. by injection Heq.
  - rewrite !(string_app_cons "/" ""), !string_app_nil_l in Heq.
    injection Heq as Heq.
    apply (inj (String.append prefix)) in Heq. by injection Heq.
Qed.

(** X20.  When the cells of positions.txt are pairwise distinct, so are
    the paths of the files [run] of capture.py asks the host to write: no
    capture of a run overwrites another one of the same run.  (Paths as
    [os.path.join] builds them on POSIX.) *)
Theorem run_paths_distinct (script_dir : string) (file_lines : list string)
    (prefix : string) (positions : list (Z * Z)) :
  Capture.parse_positions_txt file_lines = Ok (prefix, positions) →
  NoDup positions →
  NoDup (call_path <$> (Capture.run (F:=F) script_dir file_lines []).2).
Proof.
  intros Hparse Hpos. rewrite (run_log_paths _ _ prefix positions Hparse).
  apply NoDup_fmap_2_strong; [|by apply run_file_names_NoDup].
  intros name name'. unfold run_file_names. rewrite !list_elem_of_bind.
  intros (cell & Hname & _) (cell' & Hname' & _).
  rewrite cell_names_suffixes, list_elem_of_fmap in Hname, Hname'.
  destruct Hname as (suffix & -> & _), Hname' as (suffix' & -> & _).
  cbn [path_join ascii_PyBuiltins].
  rewrite !(string_app_cons "_" ""), !string_app_nil_l.
  intros Heq. apply posix_join_inj in Heq. by rewrite Heq.
Qed.
End FileNames.

Lemma run_paths_distinct_witness :
  NoDup (call_path <$>
    (Capture.run (F:=R) (PB:=ascii_PyBuiltins) "/scripts"
       (positions_file "run 7" [(0, 10); (5, -3)]%Z) []).2).
Proof.
  apply (run_paths_distinct (F:=R) "/scripts"
           (positions_file "run 7" [(0, 10); (5, -3)]%Z)
           "run 7" [(0, 10); (5, -3)]%Z).
  - vm_compute. reflexivity.
  - by apply (bool_decide_unpack _).
Defined.

Section Workspaces.
Context {W : Type}.
Implicit Types (wss : workspaces W) (ids : list string).

Lemma first_workspace_Some wss ids ws :
  Capture.first_workspace wss ids = Some ws ↔
  ∃ before wid after,
    ids = before ++ wid :: after ∧ wss wid = Some ws ∧
    Forall (λ wid', wss wid' = None) before.
Proof.
  induction ids as [|wid ids IH]; cbn [Capture.first_workspace].
  - split; [done|]. intros ([|??] & ? & ? & ? & _); done.
  - destruct (wss wid) as [ws'|] eqn:Hwid.
    + split.
      * intros [= ->]. exists [], wid, ids. by split_and!.
      * intros ([|wid' before] & wid'' & after & Hids & Hws & Hbefore).
        -- injection Hids as <- _. congruence.
        -- injection Hids as <- _. apply Forall_cons_1 in Hbefore as [Hnone _].
           congruence.
    + rewrite IH. split.
      * intros (before & wid' & after & -> & Hws & Hbefore).
        exists (wid :: before), wid', after. split_and!; [done..|].
        by apply Forall_cons_2.
      * intros ([|wid' before] & wid'' & after & Hids & Hws & Hbefore).
        -- injection Hids as <- _. congruence.
        -- injection Hids as _ ->. apply Forall_cons_1 in Hbefore as [_ Hbefore].
           by exists before, wid'', after.
Qed.

Lemma first_workspace_None wss ids :
  Capture.first_workspace wss ids = None ↔ Forall (λ wid, wss wid = None) ids.
Proof.
  induction ids as [|wid ids IH]; cbn [Capture.first_workspace].
  - split; [intros _; apply Forall_nil_2|done].
  - destruct (wss wid) as [ws'|] eqn:Hwid.
    + split; [done|]. intros [Hnone _]%Forall_cons_1. congruence.
    + rewrite IH. split; [by apply Forall_cons_2|by intros [_ ?]%Forall_cons_1].
Qed.

(** X21.  [find_render_workspace] returns the workspace of the first of the
    four candidate ids, in the order FusionRenderEnvironment,
    RenderEnvironment, RenderWorkspace, Render, that the host has, and
    [None] exactly when the host has none of them.  When
    [switch_to_render_workspace] of CaptureView.py finds its workspace,
    capture.py finds the same one; capture.py also finds a workspace the
    host has under one of the three other ids only. *)
Theorem find_render_workspace_first wss :
  (∀ ws,
     Capture.find_render_workspace wss = Some ws ↔
     ∃ before wid after,
       Capture.candidates = before ++ wid :: after ∧ wss wid = Some ws ∧
       Forall (λ wid', wss wid' = None) before) ∧
  (Capture.find_render_workspace wss = None ↔
     Forall (λ wid, wss wid = None) Capture.candidates) ∧
  (CaptureView.switch_to_render_workspace wss = true →
     Capture.find_render_workspace wss = wss "FusionRenderEnvironment") ∧
  (CaptureView.switch_to_render_workspace wss = false →
     Capture.find_render_workspace wss =
       Capture.first_workspace wss
         ["RenderEnvironment"; "RenderWorkspace"; "Render"]).
Proof.
  split_and!.
  - intros ws. apply first_workspace_Some.
  - apply first_workspace_None.
  - unfold CaptureView.switch_to_render_workspace, Capture.find_render_workspace.
    cbn [Capture.candidates Capture.first_workspace].
    by destruct (wss "FusionRenderEnvironment").
  - unfold CaptureView.switch_to_render_workspace, Capture.find_render_workspace.
    cbn [Capture.candidates Capture.first_workspace].
    by destruct (wss "FusionRenderEnvironment").
Qed.
End Workspaces.

Section FieldOfView.

Lemma float64_ltb_leb (x y : float) :
  PrimFloat.ltb x y = true → PrimFloat.leb x y = true.
Proof.
  rewrite FloatAxioms.ltb_spec, FloatAxioms.leb_spec.
  unfold SpecFloat.SFltb, SpecFloat.SFleb.
  by destruct (SpecFloat.SFcompare _ _) as [[]|].
Qed.

(** X22.  The field of view [set_camera_and_render] hands to the camera is
    within [1, 150] degrees: in exact arithmetic for every input, and in
    binary64 for every float, infinities and not-a-number included.  In
    exact arithmetic a value within [1, 150] is kept; the configured
    [VFOV_DEG] is kept in both readings. *)
Theorem safe_fov_in_range :
  (∀ v : R,
     (1 <= CaptureView.safe_fov v <= 150)%R ∧
     ((1 <= v <= 150)%R → CaptureView.safe_fov v = v)) ∧
  (∀ v : float,
     PrimFloat.leb 1 (CaptureView.safe_fov v) = true ∧
     PrimFloat.leb (CaptureView.safe_fov v) 150 = true) ∧
  CaptureView.safe_fov (F:=R) CaptureView.VFOV_DEG = CaptureView.VFOV_DEG ∧
  CaptureView.safe_fov (F:=float) CaptureView.VFOV_DEG = CaptureView.VFOV_DEG.
Proof.
  split_and!.
  - intros v. unfold CaptureView.safe_fov, py_max, py_min, flt, real_PyFloatOrd.
    rewrite !real_lit.
    repeat case_bool_decide; split; try lra; intros ?; lra.
  - intros v. unfold CaptureView.safe_fov, py_max, py_min, flt, float64_PyFloatOrd.
    change (lit (F:=float) 1.0) with 1%float.
    set (top := lit (F:=float) 150.0).
    assert (PrimFloat.leb 1 top = true) as Htop by (by vm_compute).
    assert (PrimFloat.leb top 150 = true) as Htop' by (by vm_compute).
    assert (PrimFloat.leb 1 1 = true) as Hone by (by vm_compute).
    assert (PrimFloat.ltb 1 top = true) as Hlt by (by vm_compute).
    destruct (PrimFloat.ltb v top) eqn:Hv.
    + destruct (PrimFloat.ltb 1 v) eqn:Hv1.
      * split; [by apply float64_ltb_leb|].
        apply float64_ltb_leb in Hv. revert Hv. unfold top. by vm_compute.
      * split; [done|by vm_compute].
    + rewrite Hlt. by split.
  - unfold CaptureView.safe_fov, py_max, py_min, flt, real_PyFloatOrd,
      CaptureView.VFOV_DEG.
    rewrite !real_lit. repeat case_bool_decide; lra.
  - by vm_compute.
Qed.
End FieldOfView.

Section Targets.
Local Open Scope R_scope.

Lemma real_length3_nonneg (v : R * R * R) : 0 <= real_length3 v.
Proof. apply sqrt_pos. Qed.

Lemma real_length3_sq (v : R * R * R) :
  real_length3 v * real_length3 v = v.1.1 * v.1.1 + v.1.2 * v.1.2 + v.2 * v.2.
Proof. apply sqrt_sqrt. nra. Qed.

Lemma real_length3_scaled (k : R) (v : R * R * R) :
  0 <= k → real_length3 (k * v.1.1, k * v.1.2, k * v.2) = k * real_length3 v.
Proof.
  intros Hk. unfold real_length3. cbn [fst snd].
  replace (k * v.1.1 * (k * v.1.1) + k * v.1.2 * (k * v.1.2) + k * v.2 * (k * v.2))
    with (k * k * (v.1.1 * v.1.1 + v.1.2 * v.1.2 + v.2 * v.2)) by lra.
  rewrite sqrt_mult by nra. by rewrite sqrt_square.
Qed.

(** X23.  In exact arithmetic, for a forward vector that is not zero, the
    look-at target of capture.py is at 10 cm from the eye and the one of
    CaptureView.py at 100 times the length of the forward vector, both on
    the ray from the eye along the forward vector: the two scripts aim the
    camera the same way. *)
Theorem look_at_targets_on_one_ray (eye fwd : R * R * R) :
  0 < real_length3 fwd →
  let near := Capture.capture_target eye fwd in
  let far := CaptureView.render_target eye fwd in
  real_length3 (near.1.1 - eye.1.1, near.1.2 - eye.1.2, near.2 - eye.2) = 10 ∧
  real_length3 (far.1.1 - eye.1.1, far.1.2 - eye.1.2, far.2 - eye.2) =
    100 * real_length3 fwd ∧
  (far.1.1 - eye.1.1, far.1.2 - eye.1.2, far.2 - eye.2) =
    (10 * real_length3 fwd * (near.1.1 - eye.1.1),
     10 * real_length3 fwd * (near.1.2 - eye.1.2),
     10 * real_length3 fwd * (near.2 - eye.2)).
Proof.
  intros Hlen near far. unfold near, far. clear near far.
  unfold Capture.capture_target, CaptureView.render_target.
  unfold vector3d_normalize, real_AdskVector. cbv zeta.
  destruct (decide (real_length3 fwd = 0)) as [Hzero|_]; [lra|].
  rewrite !real_lit. unfold fadd, fmul, real_PyFloat. cbn [fst snd].
  set (n := real_length3 fwd) in *.
  destruct eye as [[ex ey] ez], fwd as [[fx fy] fz]. cbn [fst snd].
  split_and!.
  - replace (ex + fx / n * (100 / 10) - ex) with (10 / n * fx) by (field; lra).
    replace (ey + fy / n * (100 / 10) - ey) with (10 / n * fy) by (field; lra).
    replace (ez + fz / n * (100 / 10) - ez) with (10 / n * fz) by (field; lra).
    pose proof (real_length3_scaled (10 / n) (fx, fy, fz)) as Hscaled.
    cbn [fst snd] in Hscaled. rewrite Hscaled.
    + fold n. field. lra.
    + apply Rlt_le, Rdiv_lt_0_compat; lra.
  - replace (ex + fx * (1000 / 10) - ex) with (100 * fx) by lra.
    replace (ey + fy * (1000 / 10) - ey) with (100 * fy) by lra.
    replace (ez + fz * (1000 / 10) - ez) with (100 * fz) by lra.
    pose proof (real_length3_scaled 100 (fx, fy, fz)) as Hscaled.
    cbn [fst snd] in Hscaled. by rewrite Hscaled by lra.
  - f_equal; [f_equal|]; field; lra.
Qed.

Lemma look_at_targets_on_one_ray_witness :
  let eye : R * R * R := (1, 2, 3) in
  let fwd : R * R * R := (3, 4, 0) in
  let near := Capture.capture_target eye fwd in
  let far := CaptureView.render_target eye fwd in
  real_length3 (near.1.1 - eye.1.1, near.1.2 - eye.1.2, near.2 - eye.2) = 10 ∧
  real_length3 (far.1.1 - eye.1.1, far.1.2 - eye.1.2, far.2 - eye.2) =
    100 * real_length3 fwd ∧
  (far.1.1 - eye.1.1, far.1.2 - eye.1.2, far.2 - eye.2) =
    (10 * real_length3 fwd * (near.1.1 - eye.1.1),
     10 * real_length3 fwd * (near.1.2 - eye.1.2),
     10 * real_length3 fwd * (near.2 - eye.2)).
Proof.
  apply (look_at_targets_on_one_ray (1, 2, 3) (3, 4, 0)).
  unfold real_length3. cbn [fst snd]. apply sqrt_lt_R0. lra.
Defined.
End Targets.

Section Polling.
Local Open Scope R_scope.

Lemma wait_returns_on_timeout (t0 limit : R)
    (polls : list (local_render_state * R)) (st : local_render_state) (now : R)
    (i : nat) :
  polls !! i = Some (st, now) → limit < now - t0 →
  is_Some (CaptureView.start_and_wait_local_render t0 limit polls).
Proof.
  revert i. induction polls as [|[st' now'] polls IH]; intros i Hi Hlate; [done|].
  cbn [CaptureView.start_and_wait_local_render].
  destruct i as [|i].
  - injection Hi as -> ->. unfold flt, real_PyFloatOrd, fsub, real_PyFloat.
    rewrite (bool_decide_eq_true_2 _ Hlate). by destruct st.
  - cbn in Hi. destruct st'; try done;
      destruct (limit <? now' - t0)%py; try done; by eapply IH.
Qed.

(** X24.  The wait for a render is bounded: in exact arithmetic, if the
    clock read in pass [i] of the polling loop is at least [i] steps after
    the start of the render (the loop sleeps between two passes), the loop
    has returned or raised once it made more passes than steps fit in the
    time limit, whatever states the render reports. *)
Theorem render_wait_is_bounded (t0 limit step : R)
    (polls : list (local_render_state * R)) (n : nat) :
  (∀ i st now, polls !! i = Some (st, now) → t0 + INR i * step <= now) →
  limit < INR n * step →
  (n < length polls)%nat →
  is_Some (CaptureView.start_and_wait_local_render t0 limit polls).
Proof.
  intros Hclock Hlimit Hlen.
  destruct (lookup_lt_is_Some_2 polls n Hlen) as [[st now] Hn].
  apply (wait_returns_on_timeout t0 limit polls st now n Hn).
  specialize (Hclock n st now Hn). lra.
Qed.

Lemma render_wait_is_bounded_witness :
  is_Some (CaptureView.start_and_wait_local_render 0 300
             [(QueuedLocalRenderState, 0); (ProcessingLocalRenderState, 200);
              (ProcessingLocalRenderState, 400)]).
Proof.
  apply (render_wait_is_bounded 0 300 200 _ 2).
  - intros [|[|[|i]]] st now; cbn; intros [= <- <-] || intros [=]; cbn; lra.
  - cbn. lra.
  - cbn. lia.
Defined.
End Polling.

Section ViewRun.
Context {F : Type} {PF : PyFloat F} {PM : PyMath F} {PB : PyBuiltins}.
Implicit Types (app : host F) (d : string * (F * F)).
Implicit Types (renderer : capture_call F → res unit).

Lemma view_run_direction_ok renderer out_dir prefix gx gy cx cy cz half app d :
  (∀ call, renderer call = Ok tt) →
  CaptureView.run_direction renderer out_dir prefix gx gy cx cy cz half app d =
    (None, Capture.run_direction out_dir prefix gx gy cx cy cz half app d).
Proof.
  intros Hok. unfold CaptureView.run_direction, Capture.run_direction.
  destruct d as [dir_name base_fwd2].
  change (CaptureView.eye_poses cx cy cz half base_fwd2)
    with (Capture.eye_poses cx cy cz half base_fwd2).
  destruct (Capture.eye_poses _ _ _ _ _) as [[[? ?] ?] ?].
  unfold CaptureView.set_camera_and_render. by rewrite !Hok.
Qed.

Lemma view_run_directions_ok renderer out_dir prefix gx gy cx cy cz half app
    (dirs : list (string * (F * F))) :
  (∀ call, renderer call = Ok tt) →
  CaptureView.run_directions renderer out_dir prefix gx gy cx cy cz half app dirs =
    (None, foldl (Capture.run_direction out_dir prefix gx gy cx cy cz half) app dirs).
Proof.
  intros Hok. revert app. induction dirs as [|d dirs IH]; intros app; [done|].
  cbn [CaptureView.run_directions foldl].
  by rewrite view_run_direction_ok, IH.
Qed.

Lemma view_run_cells_ok renderer out_dir prefix
    (dc dd : list (string * (F * F))) half app positions :
  (∀ call, renderer call = Ok tt) →
  CaptureView.run_cells renderer out_dir prefix dc dd half app positions =
    Capture.run_cells out_dir prefix dc dd half app positions.
Proof.
  intros Hok. revert app.
  induction positions as [|[gx gy] rest IH]; intros app; [done|].
  cbn [CaptureView.run_cells Capture.run_cells].
  unfold CaptureView.run_cell, Capture.run_cell.
  change (CaptureView.grid_to_model_in gx gy) with (Capture.grid_to_model_in gx gy).
  destruct (Capture.grid_to_model_in gx gy) as [[[mx my] mz]|e]; [|done].
  cbn [mbind res_bind mret res_ret].
  rewrite view_run_directions_ok by done. apply IH.
Qed.

Lemma view_direction_sets :
  CaptureView.direction_sets (F:=F) =
    sets ← Capture.direction_sets; mret (sets.1, view_diagonals sets.2).
Proof.
  unfold CaptureView.direction_sets, Capture.direction_sets.
  change (@CaptureView.model_xy_cm F PF) with (@Capture.model_xy_cm F PF).
  change (@CaptureView.norm2d F PF PM) with (@Capture.norm2d F PF PM).
  repeat
    match goal with
    | |- context [mbind _ ?m] =>
        lazymatch m with
        | Capture.model_xy_cm _ _ => idtac
        | Capture.norm2d _ _ => idtac
        end;
        destruct m; cbn [mbind res_bind]; [|done]
    end.
  reflexivity.
Qed.

(** Two diagonal sets with the same vectors, whatever the names. *)
Lemma run_directions_poses out_dir prefix gx gy cx cy cz half
    (dirs dirs' : list (string * (F * F))) :
  dirs.*2 = dirs'.*2 →
  call_pose <$>
    foldl (Capture.run_direction out_dir prefix gx gy cx cy cz half) [] dirs =
  call_pose <$>
    foldl (Capture.run_direction out_dir prefix gx gy cx cy cz half) [] dirs'.
Proof.
  revert dirs'. induction dirs as [|[name v] dirs IH]; intros [|[name' v'] dirs'];
    try done.
  rewrite !fmap_cons. cbn [snd]. intros [= -> Hdirs]. cbn [foldl].
  rewrite run_directions_app,
    (run_directions_app _ _ _ _ _ _ _ _ (Capture.run_direction _ _ _ _ _ _ _ _ _ _)).
  rewrite !fmap_app, (IH dirs' Hdirs). by f_equal.
Qed.

Lemma run_cells_poses out_dir prefix (dc dd dd' : list (string * (F * F))) half
    positions :
  dd.*2 = dd'.*2 →
  (Capture.run_cells out_dir prefix dc dd half [] positions).1 =
    (Capture.run_cells out_dir prefix dc dd' half [] positions).1 ∧
  call_pose <$> (Capture.run_cells out_dir prefix dc dd half [] positions).2 =
    call_pose <$> (Capture.run_cells out_dir prefix dc dd' half [] positions).2.
Proof.
  intros Hdd. induction positions as [|[gx gy] rest [IH1 IH2]]; [done|].
  cbn [Capture.run_cells]. unfold Capture.run_cell.
  destruct (Capture.grid_to_model_in gx gy) as [[[mx my] mz]|e]; [|done].
  cbn [mbind res_bind mret res_ret].
  rewrite run_cells_app, (run_cells_app _ _ _ dd'). cbn [fst snd].
  split; [done|]. rewrite !fmap_app, IH2. f_equal.
  unfold Capture.cell_dirs. destruct (Capture.is_corner gx gy); [|done].
  by apply run_directions_poses.
Qed.

Lemma run_cells_no_corner out_dir prefix (dc dd dd' : list (string * (F * F)))
    half app positions :
  Forall (λ cell, Capture.is_corner cell.1 cell.2 = false) positions →
  Capture.run_cells out_dir prefix dc dd half app positions =
    Capture.run_cells out_dir prefix dc dd' half app positions.
Proof.
  intros Hpos. revert app.
  induction Hpos as [|[gx gy] rest Hcell _ IH]; intros app; [done|].
  cbn [Capture.run_cells]. unfold Capture.run_cell, Capture.cell_dirs.
  cbn [fst snd] in Hcell. rewrite Hcell.
  destruct (Capture.grid_to_model_in gx gy) as [[[mx my] mz]|e]; [|done].
  cbn [mbind res_bind mret res_ret]. apply IH.
Qed.

Lemma view_diagonals_vectors (dd : list (string * (F * F))) :
  length dd = 4%nat → (view_diagonals dd).*2 = dd.*2.
Proof. destruct dd as [|?[|?[|?[|?[|??]]]]]; done. Qed.

Lemma direction_sets_length (dc dd : list (string * (F * F))) :
  Capture.direction_sets = Ok (dc, dd) → length dd = 4%nat.
Proof.
  unfold Capture.direction_sets.
  repeat
    match goal with
    | |- context [mbind _ ?m] =>
        lazymatch m with
        | Capture.model_xy_cm _ _ => idtac
        | Capture.norm2d _ _ => idtac
        end;
        destruct m; cbn [mbind res_bind]; [|done]
    end.
  by intros [= <- <-].
Qed.

(** X25.  When every render succeeds, [run] of CaptureView.py reports what
    [run] of capture.py reports and asks the host for the same camera
    poses in the same order; the two differ in the file names of corner
    cells only (NE, SE, SW, NW for ne, se, sw, nw), so that on a
    positions.txt without corner cell the requests are the same. *)
Theorem view_run_matches_capture_run (renderer : capture_call F → res unit)
    (script_dir : string) (file_lines : list string) :
  (∀ call, renderer call = Ok tt) →
  let view := CaptureView.run renderer script_dir file_lines [] in
  let capture := Capture.run (F:=F) script_dir file_lines [] in
  view.1 = capture.1 ∧
  call_pose <$> view.2 = call_pose <$> capture.2 ∧
  (∀ prefix positions,
     Capture.parse_positions_txt file_lines = Ok (prefix, positions) →
     Forall (λ cell, Capture.is_corner cell.1 cell.2 = false) positions →
     view = capture).
Proof.
  intros Hok view capture. unfold view, capture. clear view capture.
  unfold CaptureView.run, Capture.run.
  change (@CaptureView.HALF_BASE_IN F PF) with (@Capture.HALF_BASE_IN F PF).
  change (@CaptureView.parse_positions_txt PB) with (@Capture.parse_positions_txt PB).
  rewrite view_direction_sets.
  destruct Capture.HALF_BASE_IN as [half|e]; [|done]. cbn [mbind res_bind].
  destruct (Capture.parse_positions_txt file_lines) as [[prefix positions]|e];
    [|by split_and!]. cbn [mbind res_bind].
  destruct Capture.direction_sets as [[dc dd]|e] eqn:Hsets; [|by split_and!].
  cbn [mbind res_bind mret res_ret fst snd].
  rewrite view_run_cells_ok by done.
  pose proof (direction_sets_length dc dd Hsets) as Hlen.
  pose proof (view_diagonals_vectors dd Hlen) as Hvec.
  destruct (run_cells_poses (path_join (path_join script_dir "photos") prefix)
              prefix dc (view_diagonals dd) dd half positions Hvec) as [H1 H2].
  split_and!.
  - destruct (Capture.run_cells _ _ _ (view_diagonals dd) _ _ _) as [[e|] log],
      (Capture.run_cells _ _ _ dd _ _ _) as [[e'|] log']; cbn [fst] in *; congruence.
  - destruct (Capture.run_cells _ _ _ (view_diagonals dd) _ _ _) as [[e|] log],
      (Capture.run_cells _ _ _ dd _ _ _) as [[e'|] log']; by cbn [snd] in *.
  - intros prefix' positions' [= <- <-] Hpos.
    by rewrite (run_cells_no_corner _ _ dc (view_diagonals dd) dd).
Qed.
End ViewRun.

Lemma view_run_matches_capture_run_witness :
  let view :=
    CaptureView.run (F:=R) (PB:=ascii_PyBuiltins) (λ _, Ok tt) "/scripts"
      ["run 7"; "0,10"; "5,-3"] [] in
  let capture :=
    Capture.run (F:=R) (PB:=ascii_PyBuiltins) "/scripts"
      ["run 7"; "0,10"; "5,-3"] [] in
  view.1 = capture.1 ∧
  call_pose <$> view.2 = call_pose <$> capture.2 ∧
  (∀ prefix positions,
     Capture.parse_positions_txt (PB:=ascii_PyBuiltins)
       ["run 7"; "0,10"; "5,-3"] = Ok (prefix, positions) →
     Forall (λ cell, Capture.is_corner cell.1 cell.2 = false) positions →
     view = capture).
Proof.
  apply (view_run_matches_capture_run (F:=R) (PB:=ascii_PyBuiltins)
           (λ _, Ok tt) "/scripts" ["run 7"; "0,10"; "5,-3"]).
  intros call. reflexivity.
Defined.

Section ViewAbort.
Context {F : Type} {PF : PyFloat F} {PM : PyMath F} {PB : PyBuiltins}.
Context (renderer : capture_call F → res unit).
Implicit Types (app new : host F) (d : string * (F * F)).

Lemma rendered_until_failure_None new :
  rendered_until_failure renderer new None →
  Forall (λ call, renderer call = Ok tt) new.
Proof. by intros [?|(? & ? & ? & _ & _ & _ & [=])]. Qed.

Lemma rendered_until_failure_app new1 new2 ended :
  Forall (λ call, renderer call = Ok tt) new1 →
  rendered_until_failure renderer new2 ended →
  rendered_until_failure renderer (new1 ++ new2) ended.
Proof.
  intros H1 [H2|(before & call & e & -> & Hbefore & Hcall & ->)].
  - left. by apply Forall_app.
  - right. exists (new1 ++ before), call, e. split_and!; try done.
    + by rewrite (assoc_L (++)).
    + by apply Forall_app.
Qed.

Lemma view_run_direction_trace out_dir prefix gx gy cx cy cz half app d :
  ∃ new,
    CaptureView.run_direction renderer out_dir prefix gx gy cx cy cz half app d =
      ((CaptureView.run_direction renderer out_dir prefix gx gy cx cy cz half
          app d).1, app ++ new) ∧
    rendered_until_failure renderer new
      (CaptureView.run_direction renderer out_dir prefix gx gy cx cy cz half
         app d).1.
Proof.
  unfold CaptureView.run_direction. destruct d as [dir_name base_fwd2].
  destruct (CaptureView.eye_poses _ _ _ _ _) as [[[left_eye left_fwd] right_eye] right_fwd].
  unfold CaptureView.set_camera_and_render.
  set (l := CaptureCall left_eye left_fwd _ _).
  set (r := CaptureCall right_eye right_fwd _ _).
  destruct (renderer l) as [[]|e] eqn:Hl.
  - destruct (renderer r) as [[]|e] eqn:Hr.
    + exists [l; r]. cbn [fst]. split; [by rewrite <-(assoc_L (++))|].
      left. by repeat constructor.
    + exists [l; r]. cbn [fst]. split; [by rewrite <-(assoc_L (++))|].
      right. exists [l], r, e. split_and!; try done. by repeat constructor.
  - exists [l]. cbn [fst]. split; [done|].
    right. exists [], l, e. split_and!; try done.
Qed.

Lemma view_run_directions_trace out_dir prefix gx gy cx cy cz half
    (dirs : list (string * (F * F))) app :
  ∃ new,
    CaptureView.run_directions renderer out_dir prefix gx gy cx cy cz half
      app dirs =
      ((CaptureView.run_directions renderer out_dir prefix gx gy cx cy cz half
          app dirs).1, app ++ new) ∧
    rendered_until_failure renderer new
      (CaptureView.run_directions renderer out_dir prefix gx gy cx cy cz half
         app dirs).1.
Proof.
  revert app. induction dirs as [|d dirs IH]; intros app.
  - exists []. cbn. split; [by rewrite (right_id_L [] (++))|]. left. constructor.
  - cbn [CaptureView.run_directions].
    destruct (view_run_direction_trace out_dir prefix gx gy cx cy cz half app d)
      as (new1 & Hrun & Htrace).
    rewrite Hrun in *. cbn [fst] in Htrace.
    destruct (CaptureView.run_direction _ _ _ _ _ _ _ _ _ _ _).1 as [e|].
    + exists new1. by cbn [fst].
    + destruct (IH (app ++ new1)) as (new2 & Hrest & Htrace').
      rewrite Hrest in *. cbn [fst] in *.
      exists (new1 ++ new2). split; [by rewrite (assoc_L (++))|].
      apply rendered_until_failure_app; [|done].
      by apply rendered_until_failure_None.
Qed.

Lemma view_run_cells_trace out_dir prefix (dc dd : list (string * (F * F)))
    half positions app :
  ∃ new,
    CaptureView.run_cells renderer out_dir prefix dc dd half app positions =
      ((CaptureView.run_cells renderer out_dir prefix dc dd half app
          positions).1, app ++ new) ∧
    rendered_until_failure renderer new
      (CaptureView.run_cells renderer out_dir prefix dc dd half app positions).1.
Proof.
  revert app. induction positions as [|[gx gy] rest IH]; intros app.
  - exists []. cbn. split; [by rewrite (right_id_L [] (++))|]. left. constructor.
  - cbn [CaptureView.run_cells]. unfold CaptureView.run_cell.
    destruct (CaptureView.grid_to_model_in gx gy) as [[[mx my] mz]|e].
    + destruct (view_run_directions_trace out_dir prefix gx gy
                  (CaptureView.inches_to_cm mx) (CaptureView.inches_to_cm my)
                  (CaptureView.inches_to_cm CaptureView.EYE_Z_IN) half
                  (if CaptureView.is_corner gx gy then dd else dc) app)
        as (new1 & Hrun & Htrace).
      rewrite Hrun in *. cbn [fst] in Htrace.
      destruct (CaptureView.run_directions _ _ _ _ _ _ _ _ _ _ _).1 as [e|].
      * exists new1. by cbn [fst].
      * destruct (IH (app ++ new1)) as (new2 & Hrest & Htrace').
        rewrite Hrest in *. cbn [fst] in *.
        exists (new1 ++ new2). split; [by rewrite (assoc_L (++))|].
        apply rendered_until_failure_app; [|done].
        by apply rendered_until_failure_None.
    + exists []. cbn [fst]. split; [by rewrite (right_id_L [] (++))|].
      left. constructor.
Qed.

Lemma view_run_trace (script_dir : string) (file_lines : list string) :
  ∃ ended,
    rendered_until_failure renderer
      (CaptureView.run renderer script_dir file_lines []).2 ended ∧
    (∀ e, ended = Some e →
       (CaptureView.run renderer script_dir file_lines []).1 = Failed e) ∧
    (∀ out_dir,
       (CaptureView.run renderer script_dir file_lines []).1 = Completed out_dir →
       ended = None).
Proof.
  unfold CaptureView.run.
  destruct (_ ← CaptureView.HALF_BASE_IN; _)
    as [[[[[[half prefix] positions] out_dir] dc] dd]|e].
  - destruct (view_run_cells_trace out_dir prefix dc dd half positions [])
      as (new & Hrun & Htrace).
    rewrite Hrun in *. cbn [fst app] in *.
    destruct (CaptureView.run_cells _ _ _ _ _ _ _ _).1 as [e|].
    + exists (Some e). cbn [fst snd]. split_and!; [done|by intros ? [= ->]|done].
    + exists None. cbn [fst snd]. by split_and!.
  - exists (Some e). cbn [fst snd]. split_and!; [|by intros ? [= ->]|done].
    left. constructor.
Qed.

(** X26.  A render that fails ends [run] of CaptureView.py: in the requests
    of a run every one but the last was rendered; if the last one raised,
    [run] reports that exception; and if [run] reports completion, every
    request was rendered.  No request follows a failed one. *)
Theorem failed_render_ends_run (script_dir : string) (file_lines : list string) :
  let report := (CaptureView.run renderer script_dir file_lines []).1 in
  let requests := (CaptureView.run renderer script_dir file_lines []).2 in
  Forall (λ call, renderer call = Ok tt) (removelast requests) ∧
  (∀ call e,
     last requests = Some call → renderer call = Raise e → report = Failed e) ∧
  (∀ out_dir,
     report = Completed out_dir →
     Forall (λ call, renderer call = Ok tt) requests).
Proof.
  intros report requests. unfold report, requests. clear report requests.
  destruct (view_run_trace script_dir file_lines) as (ended & Htrace & Hfail & Hdone).
  destruct Htrace as [Hall|(before & call & e & Hlog & Hbefore & Hcall & ->)].
  - split_and!.
    + revert Hall. generalize (CaptureView.run renderer script_dir file_lines []).2.
      intros log. induction 1 as [|c [|c' log'] Hc Hlog IH]; cbn; auto.
    + intros call e Hlast Hcall.
      apply last_Some in Hlast as [log' Hlast]. rewrite Hlast in Hall.
      apply Forall_app in Hall as [_ [Hok _]%Forall_cons_1]. congruence.
    + done.
  - rewrite Hlog. split_and!.
    + by rewrite removelast_last.
    + intros call' e'. rewrite last_snoc. intros [= <-] He'.
      rewrite Hcall in He'. injection He' as <-. by apply Hfail.
    + intros out_dir Hreport. by specialize (Hdone out_dir Hreport).
Qed.
End ViewAbort.

Section Float64Grid.

Lemma float64_tables_ordered_inside :
  forallb (λ i,
      forallb (λ j,
          (j <? i)%Z ||
          (float64_ordered_within Capture.X_FROM_GRID_Y_IN
             (lit 8.039) (lit 102.999) i j &&
           float64_ordered_within Capture.Y_FROM_GRID_X_IN
             (lit 6.02) (lit 100.98) i j))
        (Z.of_nat <$> seq 0 11))
    (Z.of_nat <$> seq 0 11) = true.
Proof. vm_compute. reflexivity. Qed.

Lemma clamp_index_grid (i : Z) : clamp_index i ∈ Z.of_nat <$> seq 0 11.
Proof.
  apply list_elem_of_fmap. exists (Z.to_nat (clamp_index i)).
  unfold clamp_index. split; [lia|]. apply elem_of_seq. lia.
Qed.

(** X27.  In binary64, as in exact arithmetic, the grid mapping is
    monotone and stays in the calibrated rectangle: for grid indices
    [i <= j], inside the grid or not, both tables yield values, those at
    [i] are not above those at [j], and all lie between the values of the
    first and the last knot. *)
Theorem float64_grid_mapping_monotone (i j : Z) :
  (i ≤ j)%Z →
  (∃ v w : float,
     Capture._interp_linear i Capture.X_FROM_GRID_Y_IN = Ok v ∧
     Capture._interp_linear j Capture.X_FROM_GRID_Y_IN = Ok w ∧
     PrimFloat.leb (lit 8.039) v = true ∧ PrimFloat.leb v w = true ∧
     PrimFloat.leb w (lit 102.999) = true) ∧
  (∃ v w : float,
     Capture._interp_linear i Capture.Y_FROM_GRID_X_IN = Ok v ∧
     Capture._interp_linear j Capture.Y_FROM_GRID_X_IN = Ok w ∧
     PrimFloat.leb (lit 6.02) v = true ∧ PrimFloat.leb v w = true ∧
     PrimFloat.leb w (lit 100.98) = true).
Proof.
  intros Hij.
  rewrite (X_table_clamps i), (X_table_clamps j), (Y_table_clamps i),
    (Y_table_clamps j).
  pose proof float64_tables_ordered_inside as Hall.
  rewrite forallb_forall in Hall.
  specialize (Hall (clamp_index i)
                (proj1 (list_elem_of_In _ _) (clamp_index_grid i))).
  rewrite forallb_forall in Hall.
  specialize (Hall (clamp_index j)
                (proj1 (list_elem_of_In _ _) (clamp_index_grid j))).
  apply orb_true_iff in Hall as [Hlt|Hall].
  { apply Z.ltb_lt in Hlt. unfold clamp_index in Hlt. lia. }
  apply andb_true_iff in Hall as [HX HY].
  unfold float64_ordered_within in HX, HY. split.
  - destruct (Capture._interp_linear (clamp_index i) Capture.X_FROM_GRID_Y_IN)
      as [v|]; [|done].
    destruct (Capture._interp_linear (clamp_index j) Capture.X_FROM_GRID_Y_IN)
      as [w|]; [|done].
    apply andb_true_iff in HX as [[H1 H2]%andb_true_iff H3].
    by exists v, w.
  - destruct (Capture._interp_linear (clamp_index i) Capture.Y_FROM_GRID_X_IN)
      as [v|]; [|done].
    destruct (Capture._interp_linear (clamp_index j) Capture.Y_FROM_GRID_X_IN)
      as [w|]; [|done].
    apply andb_true_iff in HY as [[H1 H2]%andb_true_iff H3].
    by exists v, w.
Qed.

Lemma float64_grid_mapping_monotone_witness :
  (∃ v w : float,
     Capture._interp_linear 3 Capture.X_FROM_GRID_Y_IN = Ok v ∧
     Capture._interp_linear 12 Capture.X_FROM_GRID_Y_IN = Ok w ∧
     PrimFloat.leb (lit 8.039) v = true ∧ PrimFloat.leb v w = true ∧
     PrimFloat.leb w (lit 102.999) = true) ∧
  (∃ v w : float,
     Capture._interp_linear 3 Capture.Y_FROM_GRID_X_IN = Ok v ∧
     Capture._interp_linear 12 Capture.Y_FROM_GRID_X_IN = Ok w ∧
     PrimFloat.leb (lit 6.02) v = true ∧ PrimFloat.leb v w = true ∧
     PrimFloat.leb w (lit 100.98) = true).
Proof. apply (float64_grid_mapping_monotone 3 12). lia. Defined.
End Float64Grid.
